(** * DFA-CPP: a shallow embedding of [dfa.cpp]

    The C++ program keeps a state diagram as a fixed array of adjacency
    vectors, builds it from a line-oriented text file and runs an input
    string over it.  Member functions are embedded as computations in a
    small state-and-outcome monad over the object they are called on;
    an out-of-bounds [operator[]] access is the outcome [Undefined], an
    exception thrown by [std::stoi] is the outcome [Throw]. *)

From Stdlib Require Import ZArith Ascii String List Lia Bool.
From stdpp Require Import base numbers list list_numbers option strings pretty.

Local Open Scope Z_scope.

(* ===================================================================== *)
(** ** Outcomes and the method monad                                      *)
(* ===================================================================== *)

(** The two exceptions [std::stoi] can throw. *)
Inductive exn : Type :=
  | invalid_argument
  | out_of_range.

(** How a C++ call ends: it returns, an exception leaves it, or it has
    indexed a container out of bounds (undefined behaviour). *)
Inductive outcome (A : Type) : Type :=
  | Ok (a : A)
  | Throw (e : exn)
  | Undefined.

Arguments Ok {A} a.
Arguments Throw {A} e.
Arguments Undefined {A}.

(** A member function on an object of type [S] returning an [A]. *)
Definition M (S A : Type) : Type := S -> outcome (A * S).

Definition ret {S A} (a : A) : M S A := fun s => Ok (a, s).

Definition bind {S A B} (m : M S A) (k : A -> M S B) : M S B :=
  fun s =>
    match m s with
    | Ok (a, s') => k a s'
    | Throw e => Throw e
    | Undefined => Undefined
    end.

(** Reading a member, and assigning to one. *)
Definition gets {S A} (proj : S -> A) : M S A := fun s => Ok (proj s, s).
Definition modify {S} (upd : S -> S) : M S unit := fun s => Ok (tt, upd s).
Definition undefined {S A} : M S A := fun _ => Undefined.

(** Calling a member function of a sub-object: [proj] reads the member,
    [upd] writes it back. *)
Definition zoom {S T A} (proj : T -> S) (upd : S -> T -> T) (m : M S A) : M T A :=
  fun t =>
    match m (proj t) with
    | Ok (a, s') => Ok (a, upd s' t)
    | Throw e => Throw e
    | Undefined => Undefined
    end.

(** A pure computation that may throw, run inside a method. *)
Definition lift {S A} (o : outcome A) : M S A :=
  fun s =>
    match o with
    | Ok a => Ok (a, s)
    | Throw e => Throw e
    | Undefined => Undefined
    end.

Declare Scope method_scope.
Delimit Scope method_scope with method.
Notation "x <- c ;; k" := (bind c (fun x => k))
  (at level 100, c at next level, right associativity) : method_scope.
Notation "c ;;; k" := (bind c (fun _ => k))
  (at level 100, right associativity) : method_scope.
Local Open Scope method_scope.

(* ===================================================================== *)
(** ** Machine integers, characters, arrays                               *)
(* ===================================================================== *)

Definition INT_MIN : Z := - 2 ^ 31.
Definition INT_MAX : Z := 2 ^ 31 - 1.

(** [x + 1] on a signed [int]: overflow is undefined behaviour. *)
Definition incr_int {S} (x : Z) : M S Z :=
  if x + 1 <=? INT_MAX then ret (x + 1) else undefined.

(** [int(symbol)] for a [char] that is signed, as on the usual ABIs. *)
Definition int_of_char (symbol : ascii) : Z :=
  let n := Z.of_N (N_of_ascii symbol) in
  if n <? 128 then n else n - 256.

(** [a[index]] on a [std::array] or [std::vector]: the element when the
    index is within the container, nothing (undefined behaviour) otherwise.
    A negative [int] converts to a huge [size_t]. *)
Definition at_index {A} (a : list A) (index : Z) : option A :=
  if 0 <=? index then a !! Z.to_nat index else None.

(* ===================================================================== *)
(** ** StateDiagram                                                       *)
(* ===================================================================== *)

Definition MAXVERT : Z := 1000.

Record StateDiagram : Type := mkStateDiagram {
  states : list (list (Z * Z));
  degree : list Z;
  nvertices : Z;
  nedges : Z
}.

(** The values that uninitialised [int]s happen to hold: the members [q]
    and [f] of a default-constructed [DFA], the locals [nvertices] and
    [nedges] of the builder, and the slots of the [degree] array. *)
Record Indeterminate : Type := mkIndeterminate {
  indet_q : Z;
  indet_f : Z;
  indet_nvertices : Z;
  indet_nedges : Z;
  indet_degree : nat -> Z
}.

(** [StateDiagram()]: [MAXVERT+1] empty adjacency vectors, counters zero. *)
Definition StateDiagram_new (u : Indeterminate) : StateDiagram :=
  {| states := replicate (Z.to_nat (MAXVERT + 1)) [];
     degree := map (indet_degree u) (seq 0 (Z.to_nat (MAXVERT + 1)));
     nvertices := 0;
     nedges := 0 |}.

Definition getState (index : Z) : M StateDiagram (list (Z * Z)) :=
  fun sd =>
    match at_index (states sd) index with
    | Some adjList => Ok (adjList, sd)
    | None => Undefined
    end.

Definition set_states (st : list (list (Z * Z))) (sd : StateDiagram) : StateDiagram :=
  {| states := st; degree := degree sd;
     nvertices := nvertices sd; nedges := nedges sd |}.

Definition insertEdge (state_no weight y : Z) : M StateDiagram unit :=
  fun sd =>
    let pair := (weight, y) in
    match at_index (states sd) state_no with
    | Some state =>
        Ok (tt, set_states (<[Z.to_nat state_no := state ++ [pair]]> (states sd)) sd)
    | None => Undefined
    end.

(* ===================================================================== *)
(** ** DFA                                                                *)
(* ===================================================================== *)

Record DFA : Type := mkDFA {
  state_diagram : StateDiagram;
  q : Z;
  f : Z
}.

Definition DFA_new (u : Indeterminate) : DFA :=
  {| state_diagram := StateDiagram_new u; q := indet_q u; f := indet_f u |}.

Definition DFA_of (graph : StateDiagram) (init_state final_state : Z) : DFA :=
  {| state_diagram := graph; q := init_state; f := final_state |}.

Definition with_state_diagram (sd : StateDiagram) (d : DFA) : DFA :=
  {| state_diagram := sd; q := q d; f := f d |}.

Definition on_state_diagram {A} (m : M StateDiagram A) : M DFA A :=
  zoom state_diagram with_state_diagram m.

Definition setInitialState (init_state : Z) : M DFA unit :=
  fun d => Ok (tt, {| state_diagram := state_diagram d; q := init_state; f := f d |}).
Definition getInitState : M DFA Z := fun d => Ok (q d, d).
Definition setFinalState (final_state : Z) : M DFA unit :=
  fun d => Ok (tt, {| state_diagram := state_diagram d; q := q d; f := final_state |}).
Definition getFinalstate : M DFA Z := fun d => Ok (f d, d).
Definition setStateDiagram (diag : StateDiagram) : M DFA unit :=
  fun d => Ok (tt, with_state_diagram diag d).
Definition getStateDiagram : M DFA StateDiagram := fun d => Ok (state_diagram d, d).

(** The inner [for] of [execute]: walk the adjacency list, stop at the
    first pair whose weight is the symbol and whose state is not the
    current one; the result is the new [current_state]. *)
Fixpoint scan (curr_adj_list : list (Z * Z)) (symbol_val current_state : Z) : Z :=
  match curr_adj_list with
  | [] => current_state
  | state :: rest =>
      if (state.1 =? symbol_val) && negb (state.2 =? current_state)
      then state.2
      else scan rest symbol_val current_state
  end.

(** The outer [for] of [execute], over the characters of [input]. *)
Fixpoint execute_loop (input : string) (current_state : Z) : M DFA Z :=
  match input with
  | EmptyString => ret current_state
  | String symbol rest =>
      let symbol_val := int_of_char symbol in
      curr_adj_list <- on_state_diagram (getState current_state) ;;
      execute_loop rest (scan curr_adj_list symbol_val current_state)
  end.

Definition execute (input : string) : M DFA bool :=
  let final_state_reached := false in
  current_state <- gets q ;;
  current_state <- execute_loop input current_state ;;
  final_state <- gets f ;;
  ret (if current_state =? final_state then true else final_state_reached).

(* ===================================================================== *)
(** ** Text utilities: [std::getline], [split], [trim], [std::stoi]       *)
(* ===================================================================== *)

(** The characters [std::getline] extracts from a non-empty stream: up to
    the delimiter (consumed, not stored) or the end; with what remains. *)
Fixpoint getline_chars (ss : string) (delim : ascii) : string * string :=
  match ss with
  | EmptyString => (EmptyString, EmptyString)
  | String c rest =>
      if Ascii.eqb c delim then (EmptyString, rest)
      else let (item, remaining) := getline_chars rest delim in
           (String c item, remaining)
  end.

(** [std::getline(ss, item, delim)]: fails when the stream is exhausted. *)
Definition getline (ss : string) (delim : ascii) : option (string * string) :=
  match ss with
  | EmptyString => None
  | _ => Some (getline_chars ss delim)
  end.

(** [while (std::getline(ss, item, delim)) elems.push_back(item);] *)
Fixpoint split_loop (fuel : nat) (ss : string) (delim : ascii) : list string :=
  match fuel with
  | O => []
  | S fuel' =>
      match getline ss delim with
      | None => []
      | Some (item, ss') => item :: split_loop fuel' ss' delim
      end
  end.

Definition split (s : string) (delim : ascii) : list string :=
  split_loop (S (String.length s)) s delim.

(** [std::isspace] in the "C" locale. *)
Definition isspace (ch : ascii) : bool :=
  let n := N_of_ascii ch in
  ((9 <=? n) && (n <=? 13) || (n =? 32))%N.

Fixpoint ltrim (s : string) : string :=
  match s with
  | EmptyString => EmptyString
  | String c rest => if isspace c then ltrim rest else s
  end.

Fixpoint rtrim (s : string) : string :=
  match s with
  | EmptyString => EmptyString
  | String c rest =>
      match rtrim rest with
      | EmptyString => if isspace c then EmptyString else String c EmptyString
      | rest' => String c rest'
      end
  end.

Definition trim (s : string) : string := rtrim (ltrim s).
Definition trim_copy (s : string) : string := trim s.

Definition isdigit (ch : ascii) : bool :=
  let n := N_of_ascii ch in ((48 <=? n) && (n <=? 57))%N.

Definition digit_val (ch : ascii) : Z := Z.of_N (N_of_ascii ch) - 48.

(** The decimal digits at the front of [s], accumulated; [None] while no
    digit has been read. *)
Fixpoint read_digits (s : string) (acc : option Z) : option Z :=
  match s with
  | String c rest =>
      if isdigit c
      then read_digits rest (Some (10 * default 0 acc + digit_val c))
      else acc
  | EmptyString => acc
  end.

(** [std::stoi(str)]: leading white space, an optional sign, decimal
    digits; what follows the digits is ignored. *)
Definition stoi (str : string) : outcome Z :=
  let s := ltrim str in
  let '(negative, s) :=
    match s with
    | String "-" rest => (true, rest)
    | String "+" rest => (false, rest)
    | _ => (false, s)
    end in
  match read_digits s None with
  | None => Throw invalid_argument
  | Some v =>
      let v := if negative : bool then - v else v in
      if (INT_MIN <=? v) && (v <=? INT_MAX) then Ok v else Throw out_of_range
  end.

(** [v[i]] inside a method. *)
Definition index {S A} (v : list A) (i : Z) : M S A :=
  match at_index v i with
  | Some x => ret x
  | None => undefined
  end.

(* ===================================================================== *)
(** ** build_dfa_from_file                                                *)
(* ===================================================================== *)

(** The local variables of [build_dfa_from_file]. *)
Record locals : Type := mkLocals {
  l_state_diagram : StateDiagram;
  l_dfa : DFA;
  l_counter : Z;
  l_nvertices : Z;
  l_nedges : Z
}.

Definition set_l_state_diagram (sd : StateDiagram) (l : locals) : locals :=
  {| l_state_diagram := sd; l_dfa := l_dfa l; l_counter := l_counter l;
     l_nvertices := l_nvertices l; l_nedges := l_nedges l |}.

Definition set_l_dfa (d : DFA) (l : locals) : locals :=
  {| l_state_diagram := l_state_diagram l; l_dfa := d; l_counter := l_counter l;
     l_nvertices := l_nvertices l; l_nedges := l_nedges l |}.

Definition set_l_counter (c : Z) (l : locals) : locals :=
  {| l_state_diagram := l_state_diagram l; l_dfa := l_dfa l; l_counter := c;
     l_nvertices := l_nvertices l; l_nedges := l_nedges l |}.

Definition set_l_nvertices (n : Z) (l : locals) : locals :=
  {| l_state_diagram := l_state_diagram l; l_dfa := l_dfa l; l_counter := l_counter l;
     l_nvertices := n; l_nedges := l_nedges l |}.

Definition set_l_nedges (n : Z) (l : locals) : locals :=
  {| l_state_diagram := l_state_diagram l; l_dfa := l_dfa l; l_counter := l_counter l;
     l_nvertices := l_nvertices l; l_nedges := n |}.

Definition on_l_state_diagram {A} (m : M StateDiagram A) : M locals A :=
  zoom l_state_diagram set_l_state_diagram m.

Definition on_l_dfa {A} (m : M DFA A) : M locals A :=
  zoom l_dfa set_l_dfa m.

(** [counter++], [nvertices += 1], [nedges += 1]. *)
Definition incr_counter : M locals unit :=
  c <- gets l_counter ;;
  c' <- incr_int c ;;
  modify (set_l_counter c').

Definition incr_nvertices : M locals unit :=
  n <- gets l_nvertices ;;
  n' <- incr_int n ;;
  modify (set_l_nvertices n').

Definition incr_nedges : M locals unit :=
  n <- gets l_nedges ;;
  n' <- incr_int n ;;
  modify (set_l_nedges n').

(** [state_diagram.degree[state] = degree;] *)
Definition set_degree (state degree_val : Z) : M StateDiagram unit :=
  fun sd =>
    match at_index (degree sd) state with
    | Some _ =>
        Ok (tt, {| states := states sd;
                   degree := <[Z.to_nat state := degree_val]> (degree sd);
                   nvertices := nvertices sd; nedges := nedges sd |})
    | None => Undefined
    end.

(** The [for] over the pairs of one transition line; the accumulator is
    the local [degree]. *)
Fixpoint pairs_loop (adj_list_vector : list string) (state degree_val : Z) : M locals Z :=
  match adj_list_vector with
  | [] => ret degree_val
  | pair' :: rest =>
      let trimmed_pair := trim_copy pair' in
      let split_pair := split trimmed_pair " " in
      s0 <- index split_pair 0 ;;
      weight <- lift (stoi s0) ;;
      s1 <- index split_pair 1 ;;
      state_no_y <- lift (stoi s1) ;;
      (on_l_state_diagram (insertEdge state weight state_no_y) ;;;
       incr_nedges ;;;
       degree_val' <- incr_int degree_val ;;
       pairs_loop rest state degree_val')
  end.

(** The [else] branch of the line loop: one transition line. *)
Definition transition_line (str : string) : M locals unit :=
  let split_at_colon := split str ":" in
  s0 <- index split_at_colon 0 ;;
  state <- lift (stoi s0) ;;
  (incr_nvertices ;;;
   s1 <- index split_at_colon 1 ;;
   let adj_list_vector := split s1 "|" in
   degree_val <- pairs_loop adj_list_vector state 0 ;;
   on_l_state_diagram (set_degree state degree_val)).

(** The body of [while (std::getline(state_file, str))]. *)
Definition line_body (str : string) : M locals unit :=
  counter <- gets l_counter ;;
  ((if counter =? 0 then
      n <- lift (stoi str) ;; on_l_dfa (setInitialState n)
    else if counter =? 1 then
      n <- lift (stoi str) ;; on_l_dfa (setFinalState n)
    else transition_line str) ;;;
   incr_counter).

Fixpoint lines_loop (lines : list string) : M locals unit :=
  match lines with
  | [] => ret tt
  | str :: rest => (line_body str ;;; lines_loop rest)
  end.

Definition newline : ascii := "010"%char.

(** A file system: the contents of the files that can be opened. *)
Definition filesystem : Type := string -> option string.

(** The lines [std::getline] reads from the file; a file that cannot be
    opened yields none. *)
Definition file_lines (fs : filesystem) (filename : string) : list string :=
  match fs filename with
  | Some contents => split contents newline
  | None => []
  end.

Definition build_body (lines : list string) : M locals DFA :=
  lines_loop lines ;;;
  nv <- gets l_nvertices ;;
  ne <- gets l_nedges ;;
  (on_l_state_diagram
     (modify (fun sd => {| states := states sd; degree := degree sd;
                           nvertices := nv; nedges := ne |})) ;;;
   sd <- gets l_state_diagram ;;
   (on_l_dfa (setStateDiagram sd) ;;;
    gets l_dfa)).

Definition build_dfa_from_file (u : Indeterminate) (fs : filesystem)
    (filename : string) : outcome DFA :=
  let init := {| l_state_diagram := StateDiagram_new u; l_dfa := DFA_new u;
                 l_counter := 0;
                 l_nvertices := indet_nvertices u; l_nedges := indet_nedges u |} in
  match build_body (file_lines fs filename) init with
  | Ok (dfa, _) => Ok dfa
  | Throw e => Throw e
  | Undefined => Undefined
  end.

(** [main]'s use of the two: build, then execute. *)
Definition run_main (u : Indeterminate) (fs : filesystem)
    (dfa_filename input_string : string) : outcome bool :=
  match build_dfa_from_file u fs dfa_filename with
  | Ok dfa =>
      match execute input_string dfa with
      | Ok (evaluate, _) => Ok evaluate
      | Throw e => Throw e
      | Undefined => Undefined
      end
  | Throw e => Throw e
  | Undefined => Undefined
  end.


(* ===================================================================== *)
(** ** Vocabulary of the properties                                       *)
(* ===================================================================== *)

(** A state number the [states] array has a slot for. *)
Definition in_range (index : Z) : Prop := 0 <= index <= MAXVERT.

(** The array has its [MAXVERT+1] slots. *)
Definition wf_diagram (sd : StateDiagram) : Prop :=
  length (states sd) = Z.to_nat (MAXVERT + 1).

Definition targets_in_range (sd : StateDiagram) : Prop :=
  Forall (Forall (fun state : Z * Z => in_range state.2)) (states sd).

(** Every state number the automaton can be in has a slot: the initial
    state and the target of every recorded edge. *)
Definition closed (d : DFA) : Prop :=
  wf_diagram (state_diagram d) /\ in_range (q d) /\ targets_in_range (state_diagram d).

#[global] Instance in_range_dec (index : Z) : Decision (in_range index).
Proof. unfold in_range. apply _. Defined.

#[global] Instance closed_dec (d : DFA) : Decision (closed d).
Proof. unfold closed, wf_diagram, targets_in_range. apply _. Defined.

(** The test of the inner loop of [execute]. *)
Definition selectable (symbol_val current_state : Z) (state : Z * Z) : Prop :=
  state.1 = symbol_val /\ state.2 <> current_state.

(** Whether the character occurs in the string. *)
Fixpoint has_char (s : string) (c : ascii) : bool :=
  match s with
  | EmptyString => false
  | String x rest => Ascii.eqb x c || has_char rest c
  end.

(** A method of the builder that, when it returns, has kept a property
    of the locals. *)
Definition preserves {A} (P : locals -> Prop) (m : M locals A) : Prop :=
  forall l a l', m l = Ok (a, l') -> P l -> P l'.

(** A sequence of [insertEdge] calls, [(state_no, weight, y)] each. *)
Fixpoint insert_edges (edges : list (Z * Z * Z)) : M StateDiagram unit :=
  match edges with
  | [] => ret tt
  | (state_no, weight, y) :: rest =>
      (insertEdge state_no weight y ;;; insert_edges rest)
  end.

(** The diagram those calls leave, starting from a fresh one (the fresh
    one again should a call index out of bounds). *)
Definition diagram_of (u : Indeterminate) (edges : list (Z * Z * Z)) : StateDiagram :=
  match insert_edges edges (StateDiagram_new u) with
  | Ok (_, sd) => sd
  | _ => StateDiagram_new u
  end.

(** *** Sample automata *)

Definition zeros : Indeterminate := mkIndeterminate 0 0 0 0 (fun _ => 0).

(** Initial state 1, final state 2; 97 is 'a', 98 is 'b'. *)
Definition ab_edges : list (Z * Z * Z) :=
  [(1, 97, 2); (1, 98, 3); (2, 97, 1); (3, 98, 1)].

Definition ab_dfa (u : Indeterminate) : DFA := DFA_of (diagram_of u ab_edges) 1 2.

Definition ab_text : string := "1
2
1: 97 2 | 98 3
2: 97 1
3: 98 1
".

(** State 1 loops on 'a' and, inserted after that, also goes to 2 on 'a'. *)
Definition loop_first_dfa : DFA :=
  DFA_of (diagram_of zeros [(1, 97, 1); (1, 97, 2)]) 1 2.

(** State 1 loops on 'a' and has no other edge on 'a'. *)
Definition loop_only_dfa : DFA :=
  DFA_of (diagram_of zeros [(1, 97, 1); (1, 98, 2)]) 1 2.

(** State 1 goes to 2 on 'a' and, inserted after that, to 3 on 'a'. *)
Definition two_targets_edges : list (Z * Z * Z) := [(1, 97, 2); (1, 97, 3)].

(** An edge into state 2000, for which the array has no slot. *)
Definition far_target_text : string := "1
2
1: 97 2000".

(** A transition line without its colon. *)
Definition no_colon_text : string := "1
2
1 97 2".

Definition single_file (contents : string) : filesystem := fun _ => Some contents.

(** State 1 goes to 2 on 'a'; state 2, the final state, has no edge. *)
Definition sink_dfa : DFA := DFA_of (diagram_of zeros [(1, 97, 2)]) 1 2.

(* ===================================================================== *)
(** ** Evaluation as the design describes it                              *)
(* ===================================================================== *)

(** The reference the loop of [execute] is compared with.  It follows the
    description of the engine step by step and does not use the
    embedding of [execute]:
    - step b and c: in the outgoing list, in insertion order, the first
      pair whose symbol is the input symbol and whose target differs from
      the current state gives the new current state; without such a pair
      the current state stays; *)
Definition spec_next_state (outgoing : list (Z * Z)) (s current : Z) : Z :=
  match List.find (fun p : Z * Z => bool_decide (p.1 = s /\ p.2 <> current)) outgoing with
  | Some p => p.2
  | None => current
  end.

(** - step 2: one such step for each symbol of the input, in order, none
      left out, whatever states are passed through ([table] gives the
      outgoing list of a state, if the table has a place for the state); *)
Fixpoint spec_final_state (table : Z -> option (list (Z * Z)))
    (input : list Z) (current : Z) : option Z :=
  match input with
  | [] => Some current
  | s :: rest =>
      match table current with
      | Some outgoing => spec_final_state table rest (spec_next_state outgoing s current)
      | None => None
      end
  end.

(** - steps 1 and 3: start in the initial state; accept exactly when the
      state after the last symbol is the accepting state. *)
Definition spec_evaluate (d : DFA) (input : string) : option bool :=
  match spec_final_state (fun index => at_index (states (state_diagram d)) index)
          (int_of_char <$> list_ascii_of_string input) (q d) with
  | Some final => Some (final =? f d)
  | None => None
  end.

(* ===================================================================== *)
(** ** printList and main                                                 *)
(* ===================================================================== *)

(** [std::cout << i] for an [int]: its decimal digits, after a minus sign
    when it is negative. *)
Definition show_int (i : Z) : string := pretty i.

(** [std::endl]. *)
Definition endl : string := String newline EmptyString.

(** The inner [for] of [printList]: the text of one adjacency list. *)
Fixpoint print_pairs (adjList : list (Z * Z)) : string :=
  match adjList with
  | [] => EmptyString
  | pair' :: rest =>
      show_int pair'.1 +:+ " " +:+ show_int pair'.2 +:+ " " +:+ print_pairs rest
  end.

(** The outer [for] of [printList], over the values [i] takes; the result
    is the text written to [std::cout]. *)
Fixpoint printList_loop (indices : list Z) : M StateDiagram string :=
  match indices with
  | [] => ret EmptyString
  | i :: rest =>
      all <- gets states ;;
      adjList <- index all i ;;
      let line := show_int i +:+ ": " +:+ print_pairs adjList +:+ endl in
      _ <- incr_int i ;;
      text <- printList_loop rest ;;
      ret (line +:+ text)
  end.

(** [i] runs from 1 to [nvertices]. *)
Definition printList : M StateDiagram string :=
  n <- gets nvertices ;;
  printList_loop (seqZ 1 n).

Definition usage : string :=
  "Invalid Input!" +:+ endl +:+ "Usage: " +:+ endl +:+
  "./dfa <dfa_filename> <input_string>" +:+ endl.

(** [main]: the text written to [std::cout] and the exit status. *)
Definition main (u : Indeterminate) (fs : filesystem) (argv : list string)
    : outcome (string * Z) :=
  match argv with
  | _ :: dfa_filename :: input_string :: _ =>
      let out := "Building DFA from " +:+ dfa_filename +:+ endl in
      match build_dfa_from_file u fs dfa_filename with
      | Ok dfa =>
          match execute input_string dfa with
          | Ok (evaluate, _) =>
              let out := out +:+ "Input: " +:+ input_string +:+ endl in
              if evaluate : bool
              then Ok (out +:+ "Evaluation: True" +:+ endl, 0)
              else Ok (out +:+ "Evaluation: False" +:+ endl, 1)
          | Throw e => Throw e
          | Undefined => Undefined
          end
      | Throw e => Throw e
      | Undefined => Undefined
      end
  | _ => Ok (usage, 1)
  end.

(* ===================================================================== *)
(** ** Further vocabulary                                                 *)
(* ===================================================================== *)

(** What a call returns, without the object it ran on. *)
Definition returned {S A} (o : outcome (A * S)) : outcome A :=
  match o with
  | Ok (a, _) => Ok a
  | Throw e => Throw e
  | Undefined => Undefined
  end.

(** Step 2b of the algorithm in the comment of [execute]: the first pair
    whose weight is the symbol gives the new state. *)
Fixpoint plain_scan (curr_adj_list : list (Z * Z)) (symbol_val current_state : Z) : Z :=
  match curr_adj_list with
  | [] => current_state
  | state :: rest =>
      if state.1 =? symbol_val then state.2
      else plain_scan rest symbol_val current_state
  end.

(** The algorithm of that comment, steps 1 and 2. *)
Fixpoint plain_execute_loop (input : string) (current_state : Z) : M DFA Z :=
  match input with
  | EmptyString => ret current_state
  | String symbol rest =>
      curr_adj_list <- on_state_diagram (getState current_state) ;;
      plain_execute_loop rest (plain_scan curr_adj_list (int_of_char symbol) current_state)
  end.

(** The pairs of the edges that leave [state_no], in the order of the list. *)
Definition edges_from (state_no : Z) (edges : list (Z * Z * Z)) : list (Z * Z) :=
  (fun e : Z * Z * Z => (e.1.2, e.2)) <$> filter (fun e : Z * Z * Z => e.1.1 = state_no) edges.

(** The items with the delimiter between them. *)
Fixpoint join (delim : ascii) (items : list string) : string :=
  match items with
  | [] => EmptyString
  | [item] => item
  | item :: rest => item +:+ String delim (join delim rest)
  end.

Fixpoint ends_with (s : string) (c : ascii) : bool :=
  match s with
  | EmptyString => false
  | String x EmptyString => Ascii.eqb x c
  | String _ rest => ends_with rest c
  end.

Fixpoint all_space (s : string) : bool :=
  match s with
  | EmptyString => true
  | String c rest => isspace c && all_space rest
  end.

Definition starts_with_space (s : string) : bool :=
  match s with
  | EmptyString => false
  | String c _ => isspace c
  end.

Fixpoint ends_with_space (s : string) : bool :=
  match s with
  | EmptyString => false
  | String x EmptyString => isspace x
  | String _ rest => ends_with_space rest
  end.

(** The sign [std::stoi] reads off, and the text after it. *)
Definition split_sign (s : string) : bool * string :=
  match s with
  | String "-" rest => (true, rest)
  | String "+" rest => (false, rest)
  | _ => (false, s)
  end.

Definition starts_with_digit (s : string) : bool :=
  match s with
  | EmptyString => false
  | String c _ => isdigit c
  end.

(** The automaton the builder returns for [ab_text]. *)
Definition built_ab_dfa : DFA :=
  match build_dfa_from_file zeros (single_file ab_text) "dfa.gph" with
  | Ok d => d
  | _ => DFA_new zeros
  end.

(** [state_diagram.nvertices = n;] *)
Definition with_nvertices (n : Z) (sd : StateDiagram) : StateDiagram :=
  {| states := states sd; degree := degree sd; nvertices := n; nedges := nedges sd |}.

(** The [degree] array has its [MAXVERT+1] slots. *)
Definition wf_degree (sd : StateDiagram) : Prop :=
  length (degree sd) = Z.to_nat (MAXVERT + 1).

(** The edges one transition line stands for, and those of all lines. *)
Definition line_triples (p : Z * list (Z * Z)) : list (Z * Z * Z) :=
  (fun e : Z * Z => (p.1, e.1, e.2)) <$> p.2.

Definition all_triples (parsed : list (Z * list (Z * Z))) : list (Z * Z * Z) :=
  concat (line_triples <$> parsed).

(** The pairs [index] gets from one transition line. *)
Definition pairs_for (index state : Z) (edges : list (Z * Z)) : list (Z * Z) :=
  if decide (index = state) then edges else [].

(** A pair as the builder reads it: the first two items between spaces,
    after trimming, are numbers. *)
Definition pair_parses (pair' : string) (edge : Z * Z) : Prop :=
  exists s0 s1 more,
    split (trim_copy pair') " " = s0 :: s1 :: more
    /\ stoi s0 = Ok edge.1 /\ stoi s1 = Ok edge.2.

(** A transition line as the builder reads it: a number before the first
    colon, and between the first and the second colon pairs separated by
    bars. *)
Definition line_parses (str : string) (state : Z) (edges : list (Z * Z)) : Prop :=
  exists s0 s1 more,
    split str ":" = s0 :: s1 :: more
    /\ stoi s0 = Ok state
    /\ Forall2 pair_parses (split s1 "|") edges.

(* ===================================================================== *)
(** ** The inner loop                                                     *)
(* ===================================================================== *)

Section Scan.
Variables symbol_val current_state : Z.

Lemma selectable_test (state : Z * Z) :
  (state.1 =? symbol_val) && negb (state.2 =? current_state) = true
  <-> selectable symbol_val current_state state.
Proof.
  unfold selectable.
  rewrite andb_true_iff, negb_true_iff, Z.eqb_eq, Z.eqb_neq. tauto.
Qed.

Lemma scan_cons_selectable state rest :
  selectable symbol_val current_state state ->
  scan (state :: rest) symbol_val current_state = state.2.
Proof.
  intros H. apply selectable_test in H. simpl. now rewrite H.
Qed.

Lemma scan_cons_skip state rest :
  ~ selectable symbol_val current_state state ->
  scan (state :: rest) symbol_val current_state = scan rest symbol_val current_state.
Proof.
  intros H. simpl.
  destruct ((state.1 =? symbol_val) && negb (state.2 =? current_state)) eqn:E;
    [ apply selectable_test in E; contradiction | reflexivity ].
Qed.

(** Pairs that fail the test are walked over. *)
Lemma scan_app_skip before after :
  (forall state, state ∈ before -> ~ selectable symbol_val current_state state) ->
  scan (before ++ after) symbol_val current_state = scan after symbol_val current_state.
Proof.
  induction before as [|state before IH]; intros Hskip; [reflexivity|].
  change ((state :: before) ++ after) with (state :: (before ++ after)).
  rewrite scan_cons_skip by (apply Hskip; left).
  apply IH. intros s Hs. apply Hskip. now right.
Qed.

Lemma scan_none adjList :
  (forall state, state ∈ adjList -> ~ selectable symbol_val current_state state) ->
  scan adjList symbol_val current_state = current_state.
Proof.
  intros H. rewrite <- (app_nil_r adjList). now rewrite scan_app_skip.
Qed.

Lemma scan_first before state after :
  (forall s, s ∈ before -> ~ selectable symbol_val current_state s) ->
  selectable symbol_val current_state state ->
  scan (before ++ state :: after) symbol_val current_state = state.2.
Proof.
  intros Hskip Hsel. rewrite scan_app_skip by assumption.
  now apply scan_cons_selectable.
Qed.

(** What the loop computes, without reference to how it walks. *)
Lemma scan_spec adjList :
  (exists before state after,
      adjList = before ++ state :: after
      /\ (forall s, s ∈ before -> ~ selectable symbol_val current_state s)
      /\ selectable symbol_val current_state state
      /\ scan adjList symbol_val current_state = state.2)
  \/ ((forall s, s ∈ adjList -> ~ selectable symbol_val current_state s)
      /\ scan adjList symbol_val current_state = current_state).
Proof.
  induction adjList as [|state rest IH].
  - right. split; [|reflexivity]. intros s Hs. inversion Hs.
  - destruct (decide (state.1 = symbol_val /\ state.2 <> current_state)) as [Hsel|Hno].
    + left. exists [], state, rest. repeat split; try apply Hsel.
      * intros s Hs. inversion Hs.
      * now apply scan_cons_selectable.
    + rewrite scan_cons_skip by exact Hno.
      destruct IH as [(before & st & after & -> & Hskip & Hsel & Heq)|[Hall Heq]].
      * left. exists (state :: before), st, after. repeat split; try apply Hsel; try assumption.
        intros s Hs. apply elem_of_cons in Hs as [->|Hs]; [exact Hno|now apply Hskip].
      * right. split; [|assumption].
        intros s Hs. apply elem_of_cons in Hs as [->|Hs]; [exact Hno|now apply Hall].
Qed.

Lemma scan_in_range adjList :
  Forall (fun state : Z * Z => in_range state.2) adjList ->
  in_range current_state ->
  in_range (scan adjList symbol_val current_state).
Proof.
  intros Hall Hcur. induction Hall as [|state rest Hst _ IH]; [exact Hcur|].
  simpl. destruct ((state.1 =? symbol_val) && negb (state.2 =? current_state)); assumption.
Qed.
End Scan.

(* ===================================================================== *)
(** ** Array access                                                       *)
(* ===================================================================== *)

Lemma at_index_Some {A} (a : list A) (index : Z) (x : A) :
  at_index a index = Some x <-> 0 <= index /\ a !! Z.to_nat index = Some x.
Proof.
  unfold at_index. destruct (0 <=? index) eqn:E.
  - apply Z.leb_le in E. tauto.
  - apply Z.leb_gt in E. split; [discriminate|lia].
Qed.

Lemma at_index_is_Some {A} (a : list A) (index : Z) :
  is_Some (at_index a index) <-> 0 <= index < Z.of_nat (length a).
Proof.
  unfold at_index. destruct (0 <=? index) eqn:E.
  - apply Z.leb_le in E. rewrite lookup_lt_is_Some. lia.
  - apply Z.leb_gt in E. split; [intros [x Hx]; discriminate|lia].
Qed.

Lemma at_index_in_range (sd : StateDiagram) (index : Z) :
  wf_diagram sd -> in_range index -> is_Some (at_index (states sd) index).
Proof.
  unfold wf_diagram, in_range, MAXVERT. intros Hwf Hr.
  apply at_index_is_Some. rewrite Hwf. lia.
Qed.

Lemma at_index_out_of_range (sd : StateDiagram) (index : Z) :
  wf_diagram sd -> ~ in_range index -> at_index (states sd) index = None.
Proof.
  unfold wf_diagram, in_range, MAXVERT. intros Hwf Hr.
  destruct (at_index (states sd) index) eqn:E; [|reflexivity].
  assert (is_Some (at_index (states sd) index)) as Hs by (rewrite E; eauto).
  apply at_index_is_Some in Hs. rewrite Hwf in Hs. lia.
Qed.

(* ===================================================================== *)
(** ** The outer loop and [execute]                                       *)
(* ===================================================================== *)

Lemma with_state_diagram_same (d : DFA) : with_state_diagram (state_diagram d) d = d.
Proof. now destruct d. Qed.

(** [getState] hands out a copy and leaves the automaton as it was. *)
Lemma getState_on_dfa (d : DFA) (index : Z) :
  on_state_diagram (getState index) d =
  match at_index (states (state_diagram d)) index with
  | Some adjList => Ok (adjList, d)
  | None => Undefined
  end.
Proof.
  unfold on_state_diagram, zoom, getState.
  destruct (at_index (states (state_diagram d)) index); [|reflexivity].
  now rewrite with_state_diagram_same.
Qed.

(** One turn of the outer loop. *)
Lemma execute_loop_step (d : DFA) (symbol : ascii) (rest : string) (current_state : Z) :
  execute_loop (String symbol rest) current_state d =
  match at_index (states (state_diagram d)) current_state with
  | Some adjList =>
      execute_loop rest (scan adjList (int_of_char symbol) current_state) d
  | None => Undefined
  end.
Proof.
  cbn [execute_loop]. unfold bind. rewrite getState_on_dfa.
  now destruct (at_index (states (state_diagram d)) current_state).
Qed.

Lemma execute_loop_unchanged (input : string) :
  forall (current_state : Z) (d : DFA) (r : Z) (d' : DFA),
    execute_loop input current_state d = Ok (r, d') -> d' = d.
Proof.
  induction input as [|symbol rest IH]; intros cur d r d' H.
  - cbn in H. now inversion H.
  - rewrite execute_loop_step in H.
    destruct (at_index (states (state_diagram d)) cur); [|discriminate].
    now apply IH in H.
Qed.

Lemma execute_loop_app (s1 s2 : string) :
  forall (current_state : Z) (d : DFA),
    execute_loop (s1 +:+ s2) current_state d =
    (mid <- execute_loop s1 current_state ;; execute_loop s2 mid) d.
Proof.
  induction s1 as [|symbol rest IH]; intros cur d.
  - reflexivity.
  - change (String symbol rest +:+ s2) with (String symbol (rest +:+ s2)).
    unfold bind in *. rewrite !execute_loop_step.
    destruct (at_index (states (state_diagram d)) cur); [apply IH|reflexivity].
Qed.

Lemma execute_unfold (input : string) (d : DFA) :
  execute input d =
  match execute_loop input (q d) d with
  | Ok (current_state, d') => Ok (current_state =? f d', d')
  | Throw e => Throw e
  | Undefined => Undefined
  end.
Proof.
  unfold execute, bind, gets, ret. cbn.
  destruct (execute_loop input (q d) d) as [[cur d']| |]; try reflexivity.
  now destruct (cur =? f d').
Qed.

Lemma execute_loop_total (d : DFA) (input : string) :
  wf_diagram (state_diagram d) -> targets_in_range (state_diagram d) ->
  forall current_state, in_range current_state ->
    exists r, in_range r /\ execute_loop input current_state d = Ok (r, d).
Proof.
  intros Hwf Htg. induction input as [|symbol rest IH]; intros cur Hcur.
  - exists cur. now split.
  - rewrite execute_loop_step.
    destruct (at_index_in_range _ _ Hwf Hcur) as [adjList Hadj]. rewrite Hadj.
    apply IH. apply scan_in_range; [|assumption].
    apply at_index_Some in Hadj as [_ Hadj].
    exact (Forall_lookup_1 _ _ _ _ Htg Hadj).
Qed.

(* ===================================================================== *)
(** ** [insertEdge]                                                       *)
(* ===================================================================== *)

Lemma insertEdge_Ok (state_no weight y : Z) (sd sd' : StateDiagram) (u : unit) :
  insertEdge state_no weight y sd = Ok (u, sd') ->
  exists state,
    at_index (states sd) state_no = Some state
    /\ at_index (states sd') state_no = Some (state ++ [(weight, y)])
    /\ (forall other, other <> state_no ->
          at_index (states sd') other = at_index (states sd) other)
    /\ length (states sd') = length (states sd).
Proof.
  unfold insertEdge. destruct (at_index (states sd) state_no) as [state|] eqn:E; [|discriminate].
  intros H. inversion H; subst; clear H. exists state. cbn.
  apply at_index_Some in E as [Hnn E].
  split; [reflexivity|]. split; [|split].
  - apply at_index_Some. split; [assumption|].
    apply list_lookup_insert_eq. now apply lookup_lt_Some in E.
  - intros other Hne. unfold at_index. destruct (0 <=? other) eqn:Ho; [|reflexivity].
    apply Z.leb_le in Ho. apply list_lookup_insert_ne. lia.
  - apply length_insert.
Qed.

(** Later insertions only append: what a list holds stays at its front. *)
Lemma insert_edges_prefix (edges : list (Z * Z * Z)) :
  forall (sd sd' : StateDiagram) (u : unit) (index : Z) (adjList : list (Z * Z)),
    insert_edges edges sd = Ok (u, sd') ->
    at_index (states sd) index = Some adjList ->
    exists more, at_index (states sd') index = Some (adjList ++ more).
Proof.
  induction edges as [|[[state_no weight] y] rest IH]; intros sd sd' u index adjList Hrun Hadj.
  - cbn in Hrun. inversion Hrun; subst. exists []. now rewrite app_nil_r.
  - cbn [insert_edges] in Hrun. unfold bind in Hrun.
    destruct (insertEdge state_no weight y sd) as [[u1 sd1]| |] eqn:E1; try discriminate.
    apply insertEdge_Ok in E1 as (state & Hs & Hs' & Hother & _).
    destruct (decide (index = state_no)) as [->|Hne].
    + rewrite Hs in Hadj. inversion Hadj; subst.
      destruct (IH _ _ _ _ _ Hrun Hs') as [more Hmore].
      exists ((weight, y) :: more). rewrite Hmore. now rewrite <- app_assoc.
    + rewrite <- (Hother _ Hne) in Hadj. exact (IH _ _ _ _ _ Hrun Hadj).
Qed.

Lemma StateDiagram_new_wf (u : Indeterminate) : wf_diagram (StateDiagram_new u).
Proof. unfold wf_diagram. cbn [states StateDiagram_new]. apply length_replicate. Qed.

Lemma insert_edges_wf (edges : list (Z * Z * Z)) :
  forall (sd sd' : StateDiagram) (u : unit),
    insert_edges edges sd = Ok (u, sd') -> wf_diagram sd -> wf_diagram sd'.
Proof.
  induction edges as [|[[state_no weight] y] rest IH]; intros sd sd' u Hrun Hwf.
  - cbn in Hrun. now inversion Hrun; subst.
  - cbn [insert_edges] in Hrun. unfold bind in Hrun.
    destruct (insertEdge state_no weight y sd) as [[u1 sd1]| |] eqn:E1; try discriminate.
    apply insertEdge_Ok in E1 as (_ & _ & _ & _ & Hlen).
    apply (IH _ _ _ Hrun). unfold wf_diagram in *. congruence.
Qed.

(* ===================================================================== *)
(** ** Properties of [execute]                                            *)
(* ===================================================================== *)

(** C1 (amended). On each input symbol the engine walks the current
    state's adjacency list in insertion order and moves to the target of
    the first pair whose weight is the symbol and whose target is not
    the current state; when there is no such pair the state stays.  In
    particular, on a state that has a self-loop on the symbol and no edge
    on that symbol to another state, the symbol leaves the state as it is. *)
Theorem execute_takes_first_selectable
    (d : DFA) (current_state : Z) (symbol : ascii) (rest : string)
    (adjList : list (Z * Z)) :
  at_index (states (state_diagram d)) current_state = Some adjList ->
  let symbol_val := int_of_char symbol in
  let next := scan adjList symbol_val current_state in
  execute_loop (String symbol rest) current_state d = execute_loop rest next d
  /\ ((exists before state after,
          adjList = before ++ state :: after
          /\ (forall s, s ∈ before -> ~ selectable symbol_val current_state s)
          /\ selectable symbol_val current_state state
          /\ next = state.2)
      \/ ((forall s, s ∈ adjList -> ~ selectable symbol_val current_state s)
          /\ next = current_state))
  /\ ((symbol_val, current_state) ∈ adjList ->
      (forall target, (symbol_val, target) ∈ adjList -> target = current_state) ->
      execute_loop (String symbol EmptyString) current_state d = Ok (current_state, d)).
Proof.
  intros Hadj symbol_val next. split; [|split].
  - rewrite execute_loop_step, Hadj. reflexivity.
  - apply scan_spec.
  - intros _ Honly. rewrite execute_loop_step, Hadj. cbn [execute_loop]. unfold ret.
    rewrite scan_none; [reflexivity|].
    intros [w t] Hin [Hw Ht]. cbn in Hw, Ht. subst w.
    apply Ht. now apply Honly.
Qed.

Lemma execute_takes_first_selectable_witness :
  at_index (states (state_diagram loop_only_dfa)) 1 = Some [(97, 1); (98, 2)]
  /\ execute_loop "ab" 1 loop_only_dfa
     = execute_loop "b" (scan [(97, 1); (98, 2)] (int_of_char "a") 1) loop_only_dfa
  /\ execute_loop "a" 1 loop_only_dfa = Ok (1, loop_only_dfa).
Proof.
  assert (at_index (states (state_diagram loop_only_dfa)) 1 = Some [(97, 1); (98, 2)])
    as Hadj by (vm_compute; reflexivity).
  destruct (execute_takes_first_selectable loop_only_dfa 1 "a" "b" _ Hadj)
    as (Hstep & _ & Hloop).
  split; [exact Hadj|]. split; [exact Hstep|].
  apply Hloop.
  - left.
  - intros target Hin. apply elem_of_cons in Hin as [Heq|Hin].
    + now inversion Heq.
    + apply list_elem_of_singleton in Hin. inversion Hin.
Defined.

(** C1, as stated, fails: state 1 has the self-loop (1, 'a', 1), and
    consuming 'a' in state 1 moves the automaton to state 2. *)
Lemma self_loop_does_not_keep_state :
  at_index (states (state_diagram loop_first_dfa)) 1 = Some [(97, 1); (97, 2)]
  /\ (int_of_char "a", 1) ∈ [(97, 1); (97, 2)]
  /\ execute_loop "a" 1 loop_first_dfa = Ok (2, loop_first_dfa)
  /\ 2 <> 1.
Proof.
  split; [vm_compute; reflexivity|]. split; [left|].
  split; [vm_compute; reflexivity|lia].
Qed.

(** C2 (amended). [execute] returns a boolean, and leaves the automaton
    as it was, for every input string and every automaton whose initial
    state and edge targets all lie within [0..MAXVERT]; a symbol with no
    edge from the current state leaves the state unchanged. *)
Theorem execute_total_when_closed (d : DFA) (input : string) :
  closed d ->
  (exists b, execute input d = Ok (b, d))
  /\ (forall current_state symbol adjList,
        at_index (states (state_diagram d)) current_state = Some adjList ->
        (forall state, state ∈ adjList -> state.1 <> int_of_char symbol) ->
        execute_loop (String symbol EmptyString) current_state d = Ok (current_state, d)).
Proof.
  intros (Hwf & Hq & Htg). split.
  - destruct (execute_loop_total d input Hwf Htg (q d) Hq) as (r & _ & Hr).
    exists (r =? f d). rewrite execute_unfold, Hr. reflexivity.
  - intros cur symbol adjList Hadj Hmiss.
    rewrite execute_loop_step, Hadj. cbn [execute_loop]. unfold ret.
    rewrite scan_none; [reflexivity|].
    intros state Hin [Hw _]. exact (Hmiss _ Hin Hw).
Qed.

Lemma execute_total_when_closed_witness :
  closed (ab_dfa zeros)
  /\ (exists b, execute "abba" (ab_dfa zeros) = Ok (b, ab_dfa zeros))
  /\ execute_loop "b" 2 (ab_dfa zeros) = Ok (2, ab_dfa zeros).
Proof.
  assert (closed (ab_dfa zeros)) as Hclosed
    by (apply (bool_decide_unpack _); vm_compute; exact I).
  destruct (execute_total_when_closed (ab_dfa zeros) "abba" Hclosed) as [Hret Hstall].
  split; [exact Hclosed|]. split; [exact Hret|].
  apply (Hstall 2 "b"%char [(97, 1)]); [vm_compute; reflexivity|].
  intros state Hin. apply list_elem_of_singleton in Hin as ->. vm_compute. discriminate.
Defined.

(** C2, as stated, fails: the description [far_target_text] builds, and
    on the input "aa" the second step indexes [states[2000]], outside the
    array. *)
Lemma execute_undefined_outside_array :
  exists d,
    build_dfa_from_file zeros (single_file far_target_text) "dfa.gph" = Ok d
    /\ execute "a" d = Ok (false, d)
    /\ execute "aa" d = Undefined.
Proof.
  eexists. split; [vm_compute; reflexivity|].
  split; vm_compute; reflexivity.
Qed.

Lemma scan_spec_next_state (adjList : list (Z * Z)) (symbol_val current_state : Z) :
  scan adjList symbol_val current_state = spec_next_state adjList symbol_val current_state.
Proof.
  unfold spec_next_state. induction adjList as [|state rest IH]; [reflexivity|].
  cbn [scan List.find].
  destruct (decide (state.1 = symbol_val /\ state.2 <> current_state)) as [Hsel|Hno].
  - rewrite (bool_decide_eq_true_2 _ Hsel).
    apply selectable_test in Hsel. now rewrite Hsel.
  - rewrite (bool_decide_eq_false_2 _ Hno).
    destruct ((state.1 =? symbol_val) && negb (state.2 =? current_state)) eqn:E;
      [apply selectable_test in E; contradiction|exact IH].
Qed.

(** The loop of [execute] against the reference: symbol for symbol. *)
Lemma execute_loop_spec_final_state (d : DFA) (input : string) :
  forall current_state,
    execute_loop input current_state d =
    match spec_final_state (fun index => at_index (states (state_diagram d)) index)
            (int_of_char <$> list_ascii_of_string input) current_state with
    | Some final => Ok (final, d)
    | None => Undefined
    end.
Proof.
  induction input as [|symbol rest IH]; intros cur; [reflexivity|].
  rewrite execute_loop_step. cbn [list_ascii_of_string fmap list_fmap spec_final_state].
  destruct (at_index (states (state_diagram d)) cur) as [adj|]; [|reflexivity].
  rewrite IH, scan_spec_next_state. reflexivity.
Qed.

(** C4 (amended). [execute] is the evaluation the design describes: it
    consumes every symbol of the input, in order, by one step each, and
    returns [true] exactly when the state after the last symbol is the
    final state (a run that leaves the array returns nothing).  Nothing
    ends it early, and there is no intermediate failure state: an input
    that is accepted so far is rejected after one more symbol that has a
    transition out of the final state. *)
Theorem execute_consumes_whole_input (d : DFA) (input : string) :
  execute input d =
    match spec_evaluate d input with
    | Some accepted => Ok (accepted, d)
    | None => Undefined
    end
  /\ (forall (symbol : ascii) (outgoing : list (Z * Z)),
        execute input d = Ok (true, d) ->
        at_index (states (state_diagram d)) (f d) = Some outgoing ->
        spec_next_state outgoing (int_of_char symbol) (f d) <> f d ->
        execute (input +:+ String symbol EmptyString) d = Ok (false, d)).
Proof.
  split.
  - rewrite execute_unfold, execute_loop_spec_final_state. unfold spec_evaluate.
    now destruct (spec_final_state _ _ (q d)).
  - intros symbol outgoing Hacc Hout Hleave.
    rewrite execute_unfold in Hacc.
    destruct (execute_loop input (q d) d) as [[cur d']| |] eqn:E; try discriminate.
    apply execute_loop_unchanged in E as Hd. subst d'.
    inversion Hacc as [Heq]. apply Z.eqb_eq in Heq. subst cur.
    rewrite execute_unfold, execute_loop_app. unfold bind. rewrite E.
    rewrite execute_loop_step, Hout, scan_spec_next_state. cbn [execute_loop]. unfold ret.
    apply Z.eqb_neq in Hleave. now rewrite Hleave.
Qed.

Lemma execute_consumes_whole_input_witness :
  execute "a" (ab_dfa zeros) = Ok (true, ab_dfa zeros)
  /\ at_index (states (state_diagram (ab_dfa zeros))) (f (ab_dfa zeros)) = Some [(97, 1)]
  /\ spec_next_state [(97, 1)] (int_of_char "a") (f (ab_dfa zeros)) <> f (ab_dfa zeros)
  /\ execute ("a" +:+ "a") (ab_dfa zeros) = Ok (false, ab_dfa zeros).
Proof.
  assert (execute "a" (ab_dfa zeros) = Ok (true, ab_dfa zeros)) as Hacc
    by (vm_compute; reflexivity).
  assert (at_index (states (state_diagram (ab_dfa zeros))) (f (ab_dfa zeros))
          = Some [(97, 1)]) as Hout by (vm_compute; reflexivity).
  assert (spec_next_state [(97, 1)] (int_of_char "a") (f (ab_dfa zeros))
          <> f (ab_dfa zeros)) as Hleave by (vm_compute; discriminate).
  split; [exact Hacc|]. split; [exact Hout|]. split; [exact Hleave|].
  destruct (execute_consumes_whole_input (ab_dfa zeros) "a") as [_ Hnext].
  exact (Hnext "a"%char [(97, 1)] Hacc Hout Hleave).
Defined.

(** C4, as stated, fails in its last clause: in [sink_dfa] the prefix "a"
    decides the result by itself, since it leads into the final state,
    which has no edge; whatever follows, the input is accepted. *)
Lemma prefix_into_sink_decides_result :
  at_index (states (state_diagram sink_dfa)) 2 = Some []
  /\ forall rest : string,
       execute ("a" +:+ rest) sink_dfa = Ok (true, sink_dfa).
Proof.
  assert (at_index (states (state_diagram sink_dfa)) 1 = Some [(97, 2)]) as H1
    by (vm_compute; reflexivity).
  assert (at_index (states (state_diagram sink_dfa)) 2 = Some []) as H2
    by (vm_compute; reflexivity).
  split; [exact H2|]. intros rest.
  assert (forall tail, execute_loop tail 2 sink_dfa = Ok (2, sink_dfa)) as Hsink.
  { induction tail as [|c tail IH]; [reflexivity|].
    rewrite execute_loop_step, H2. exact IH. }
  rewrite execute_unfold.
  change ("a" +:+ rest) with (String "a" rest).
  change (q sink_dfa) with 1.
  rewrite execute_loop_step, H1.
  change (scan [(97, 2)] (int_of_char "a") 1) with 2.
  rewrite Hsink. reflexivity.
Qed.

(** C5. Stall on miss: when no pair of the initial state's adjacency list
    has the symbol as weight and another state as target, running the
    one-symbol input leaves the automaton in the initial state, and the
    result is whether the initial state is the final state. *)
Theorem stall_on_miss (d : DFA) (symbol : ascii) (adjList : list (Z * Z)) :
  at_index (states (state_diagram d)) (q d) = Some adjList ->
  (forall state, state ∈ adjList -> ~ selectable (int_of_char symbol) (q d) state) ->
  execute_loop (String symbol EmptyString) (q d) d = Ok (q d, d)
  /\ execute (String symbol EmptyString) d = Ok (q d =? f d, d).
Proof.
  intros Hadj Hmiss.
  assert (execute_loop (String symbol EmptyString) (q d) d = Ok (q d, d)) as Hloop.
  { rewrite execute_loop_step, Hadj. cbn [execute_loop]. unfold ret.
    now rewrite scan_none. }
  split; [exact Hloop|]. now rewrite execute_unfold, Hloop.
Qed.

Lemma stall_on_miss_witness :
  at_index (states (state_diagram (DFA_of (diagram_of zeros ab_edges) 2 2))) 2
    = Some [(97, 1)]
  /\ execute_loop "b" 2 (DFA_of (diagram_of zeros ab_edges) 2 2)
     = Ok (2, DFA_of (diagram_of zeros ab_edges) 2 2)
  /\ execute "b" (DFA_of (diagram_of zeros ab_edges) 2 2)
     = Ok (true, DFA_of (diagram_of zeros ab_edges) 2 2).
Proof.
  assert (at_index (states (state_diagram (DFA_of (diagram_of zeros ab_edges) 2 2))) 2
          = Some [(97, 1)]) as Hadj by (vm_compute; reflexivity).
  split; [exact Hadj|].
  apply (stall_on_miss (DFA_of (diagram_of zeros ab_edges) 2 2) "b" [(97, 1)] Hadj).
  intros state Hin [Hw _]. apply list_elem_of_singleton in Hin as ->.
  vm_compute in Hw. discriminate.
Defined.

(** C6 (amended). First match wins: once [insertEdge] has put an edge
    [(symbol, target)] on a source state that had no edge on that symbol,
    and the target is not the source itself, a step on the symbol from
    the source goes to that target whatever is inserted afterwards, a
    second edge on the same symbol with another target included. *)
Theorem first_inserted_edge_wins
    (sd0 sd1 sd2 : StateDiagram) (source target : Z) (symbol : ascii)
    (adjList : list (Z * Z)) (later : list (Z * Z * Z)) (d : DFA) :
  at_index (states sd0) source = Some adjList ->
  (forall state, state ∈ adjList -> state.1 <> int_of_char symbol) ->
  insertEdge source (int_of_char symbol) target sd0 = Ok (tt, sd1) ->
  insert_edges later sd1 = Ok (tt, sd2) ->
  target <> source ->
  state_diagram d = sd2 ->
  execute_loop (String symbol EmptyString) source d = Ok (target, d).
Proof.
  intros Hadj Hfresh Hins Hlater Hne <-.
  apply insertEdge_Ok in Hins as (state & Hs & Hs1 & _ & _).
  rewrite Hadj in Hs. inversion Hs; subst state; clear Hs.
  destruct (insert_edges_prefix _ _ _ _ _ _ Hlater Hs1) as [more Hmore].
  rewrite execute_loop_step, Hmore. cbn [execute_loop]. unfold ret.
  rewrite <- app_assoc. cbn [app].
  rewrite scan_first; [reflexivity| |].
  - intros state Hin [Hw _]. exact (Hfresh _ Hin Hw).
  - split; [reflexivity|exact Hne].
Qed.

Lemma first_inserted_edge_wins_witness :
  insertEdge 1 (int_of_char "a") 2 (StateDiagram_new zeros)
    = Ok (tt, diagram_of zeros [(1, 97, 2)])
  /\ insert_edges [(1, 97, 3)] (diagram_of zeros [(1, 97, 2)])
     = Ok (tt, diagram_of zeros two_targets_edges)
  /\ execute_loop "a" 1 (DFA_of (diagram_of zeros two_targets_edges) 1 3)
     = Ok (2, DFA_of (diagram_of zeros two_targets_edges) 1 3).
Proof.
  assert (insertEdge 1 (int_of_char "a") 2 (StateDiagram_new zeros)
          = Ok (tt, diagram_of zeros [(1, 97, 2)])) as Hfirst by (vm_compute; reflexivity).
  assert (insert_edges [(1, 97, 3)] (diagram_of zeros [(1, 97, 2)])
          = Ok (tt, diagram_of zeros two_targets_edges)) as Hlater by (vm_compute; reflexivity).
  split; [exact Hfirst|]. split; [exact Hlater|].
  apply (first_inserted_edge_wins (StateDiagram_new zeros)
           (diagram_of zeros [(1, 97, 2)]) (diagram_of zeros two_targets_edges)
           1 2 "a" [] [(1, 97, 3)]).
  - vm_compute. reflexivity.
  - intros state Hin. inversion Hin.
  - exact Hfirst.
  - exact Hlater.
  - lia.
  - reflexivity.
Defined.

(** C6, as stated, fails: state 1 has two edges on 'a' with different
    targets, (97, 1) inserted first and (97, 2) second, and a step on 'a'
    from state 1 goes to 2, the target of the second. *)
Lemma first_inserted_self_loop_not_taken :
  insert_edges [(1, 97, 1); (1, 97, 2)] (StateDiagram_new zeros)
    = Ok (tt, state_diagram loop_first_dfa)
  /\ at_index (states (state_diagram loop_first_dfa)) 1 = Some [(97, 1); (97, 2)]
  /\ execute_loop "a" 1 loop_first_dfa = Ok (2, loop_first_dfa)
  /\ execute_loop "a" 1 loop_first_dfa <> Ok (1, loop_first_dfa).
Proof.
  split; [vm_compute; reflexivity|]. split; [vm_compute; reflexivity|].
  assert (execute_loop "a" 1 loop_first_dfa = Ok (2, loop_first_dfa)) as H
    by (vm_compute; reflexivity).
  split; [exact H|]. rewrite H. intros Heq. inversion Heq.
Qed.

(** C7. Round trip: the automaton with initial state 1, final state 2
    and edges 1: (97,2),(98,3); 2: (97,1); 3: (98,1) accepts "a" and
    "ab" and rejects "b" and the empty input. *)
Theorem ab_dfa_round_trip (u : Indeterminate) :
  execute "a" (ab_dfa u) = Ok (true, ab_dfa u)
  /\ execute "ab" (ab_dfa u) = Ok (true, ab_dfa u)
  /\ execute "b" (ab_dfa u) = Ok (false, ab_dfa u)
  /\ execute "" (ab_dfa u) = Ok (false, ab_dfa u).
Proof. repeat split; vm_compute; reflexivity. Qed.

(** The description of that automaton builds it, and [main] reports the
    same four results. *)
Lemma ab_text_builds_ab_dfa :
  exists d,
    build_dfa_from_file zeros (single_file ab_text) "dfa.gph" = Ok d
    /\ states (state_diagram d) = states (state_diagram (ab_dfa zeros))
    /\ q d = 1 /\ f d = 2
    /\ run_main zeros (single_file ab_text) "dfa.gph" "a" = Ok true
    /\ run_main zeros (single_file ab_text) "dfa.gph" "ab" = Ok true
    /\ run_main zeros (single_file ab_text) "dfa.gph" "b" = Ok false
    /\ run_main zeros (single_file ab_text) "dfa.gph" "" = Ok false.
Proof.
  eexists. split; [vm_compute; reflexivity|].
  repeat split; vm_compute; reflexivity.
Qed.

(** C8. Determinism: a second call of [execute] on the automaton the
    first call left behind, with the same input, returns the same
    boolean; no state survives a call to influence the next. *)
Theorem execute_twice_same_result (d d' : DFA) (input : string) (r : bool) :
  execute input d = Ok (r, d') ->
  execute input d' = Ok (r, d').
Proof.
  intros H. rewrite execute_unfold in H.
  destruct (execute_loop input (q d) d) as [[cur d1]| |] eqn:E; try discriminate.
  apply execute_loop_unchanged in E as Hd1. subst d1.
  inversion H; subst d'. rewrite execute_unfold, E. reflexivity.
Qed.

Lemma execute_twice_same_result_witness :
  execute "ab" (ab_dfa zeros) = Ok (true, ab_dfa zeros)
  /\ (r1 <- execute "ab" ;; r2 <- execute "ab" ;; ret (r1, r2)) (ab_dfa zeros)
     = Ok ((true, true), ab_dfa zeros).
Proof.
  assert (execute "ab" (ab_dfa zeros) = Ok (true, ab_dfa zeros)) as H1
    by (vm_compute; reflexivity).
  split; [exact H1|].
  unfold bind. rewrite H1.
  rewrite (execute_twice_same_result (ab_dfa zeros) (ab_dfa zeros) "ab" true H1).
  reflexivity.
Defined.

(** C9. Frame: the automaton a call of [execute] leaves behind is the one
    it was called on: same adjacency lists, same initial state, same
    final state (and same counters). *)
Theorem execute_leaves_automaton_unchanged (d d' : DFA) (input : string) (r : bool) :
  execute input d = Ok (r, d') ->
  d' = d
  /\ states (state_diagram d') = states (state_diagram d)
  /\ (forall index, at_index (states (state_diagram d')) index
                    = at_index (states (state_diagram d)) index)
  /\ q d' = q d
  /\ f d' = f d.
Proof.
  intros H. rewrite execute_unfold in H.
  destruct (execute_loop input (q d) d) as [[cur d1]| |] eqn:E; try discriminate.
  apply execute_loop_unchanged in E. subst d1.
  inversion H; subst d'. repeat split; reflexivity.
Qed.

Lemma execute_leaves_automaton_unchanged_witness :
  execute "ab" (ab_dfa zeros) = Ok (true, ab_dfa zeros)
  /\ ab_dfa zeros = ab_dfa zeros
  /\ states (state_diagram (ab_dfa zeros)) = states (state_diagram (ab_dfa zeros))
  /\ (forall index, at_index (states (state_diagram (ab_dfa zeros))) index
                    = at_index (states (state_diagram (ab_dfa zeros))) index)
  /\ q (ab_dfa zeros) = q (ab_dfa zeros)
  /\ f (ab_dfa zeros) = f (ab_dfa zeros).
Proof.
  assert (execute "ab" (ab_dfa zeros) = Ok (true, ab_dfa zeros)) as H1
    by (vm_compute; reflexivity).
  split; [exact H1|].
  exact (execute_leaves_automaton_unchanged (ab_dfa zeros) (ab_dfa zeros) "ab" true H1).
Defined.

(** C10. The outer loop composes over concatenation: running it on
    [s1 +:+ s2] from a state is running it on [s1] and then on [s2] from
    the state [s1] led to; and [execute] on [s1 +:+ s2] compares the
    state so reached with the final state. *)
Theorem execute_loop_concat (d : DFA) (current_state : Z) (s1 s2 : string) :
  execute_loop (s1 +:+ s2) current_state d =
    (mid <- execute_loop s1 current_state ;; execute_loop s2 mid) d
  /\ execute (s1 +:+ s2) d =
    (mid <- execute_loop s1 (q d) ;;
     last <- execute_loop s2 mid ;;
     final_state <- gets f ;;
     ret (last =? final_state)) d.
Proof.
  split; [apply execute_loop_app|].
  rewrite execute_unfold, execute_loop_app. unfold bind, ret, gets.
  destruct (execute_loop s1 (q d) d) as [[mid d1]| |]; reflexivity.
Qed.

(* ===================================================================== *)
(** ** [split]                                                            *)
(* ===================================================================== *)

Lemma getline_chars_shrinks (delim c : ascii) (rest : string) :
  (String.length (getline_chars (String c rest) delim).2 < String.length (String c rest))%nat.
Proof.
  revert c. induction rest as [|c' rest IH]; intros c.
  - cbn. destruct (Ascii.eqb c delim); cbn; lia.
  - specialize (IH c'). remember (String c' rest) as s eqn:Hs.
    cbn [getline_chars]. destruct (Ascii.eqb c delim); [cbn; lia|].
    destruct (getline_chars s delim) as [item remaining]. cbn in *. lia.
Qed.

(** The fuel [split] gives its loop is enough: more changes nothing. *)
Lemma split_loop_enough (delim : ascii) (fuel1 : nat) :
  forall (fuel2 : nat) (ss : string),
    (String.length ss < fuel1)%nat -> (String.length ss < fuel2)%nat ->
    split_loop fuel1 ss delim = split_loop fuel2 ss delim.
Proof.
  induction fuel1 as [|fuel1 IH]; intros fuel2 ss H1 H2; [lia|].
  destruct fuel2 as [|fuel2]; [lia|].
  destruct ss as [|c rest]; [reflexivity|].
  cbn [split_loop getline].
  pose proof (getline_chars_shrinks delim c rest) as Hlt.
  destruct (getline_chars (String c rest) delim) as [item remaining].
  cbn [snd] in Hlt. f_equal. apply IH; lia.
Qed.

Lemma getline_chars_no_delim (delim : ascii) (s : string) :
  has_char s delim = false -> getline_chars s delim = (s, EmptyString).
Proof.
  induction s as [|c rest IH]; [reflexivity|].
  cbn. destruct (Ascii.eqb c delim); [discriminate|].
  cbn. intros H. now rewrite IH.
Qed.

(** A string without the delimiter is its own single item; the empty
    string has no item at all. *)
Lemma split_no_delim (delim : ascii) (s : string) :
  has_char s delim = false ->
  split s delim = match s with EmptyString => [] | _ => [s] end.
Proof.
  intros H. destruct s as [|c rest]; [reflexivity|].
  unfold split. cbn [split_loop getline].
  now rewrite getline_chars_no_delim.
Qed.

Example split_samples :
  split "1: 97 2 | 98 3" ":" = ["1"; " 97 2 | 98 3"]
  /\ split " 97 2 | 98 3" "|" = [" 97 2 "; " 98 3"]
  /\ split "a::b:" ":" = ["a"; ""; "b"]
  /\ split ":" ":" = [""]
  /\ split "" ":" = [].
Proof. repeat split; reflexivity. Qed.

Example stoi_samples :
  stoi " 97" = Ok 97
  /\ stoi "1 97 2" = Ok 1
  /\ stoi "-12x" = Ok (-12)
  /\ stoi "x" = Throw invalid_argument
  /\ stoi "" = Throw invalid_argument
  /\ stoi "2147483648" = Throw out_of_range.
Proof. repeat split; reflexivity. Qed.

Example trim_copy_samples :
  trim_copy " 97 2 " = "97 2" /\ trim_copy "   " = "" /\ trim_copy "a  b" = "a  b".
Proof. repeat split; reflexivity. Qed.

(* ===================================================================== *)
(** ** The builder                                                        *)
(* ===================================================================== *)

Lemma transition_line_no_colon (str : string) (l : locals) :
  has_char str ":" = false ->
  transition_line str l =
  match str with
  | EmptyString => Undefined
  | _ => match stoi str with
         | Throw e => Throw e
         | _ => Undefined
         end
  end.
Proof.
  intros H. unfold transition_line. rewrite (split_no_delim _ _ H).
  destruct str as [|c rest]; [reflexivity|].
  unfold bind, index, lift, ret, undefined. cbn [at_index Z.leb Z.compare].
  change ([String c rest] !! Z.to_nat 0) with (Some (String c rest)).
  change ([String c rest] !! Z.to_nat 1) with (@None string).
  cbv beta iota.
  destruct (stoi (String c rest)) as [state|e|]; try reflexivity.
  unfold incr_nvertices, bind, gets, incr_int, modify, ret, undefined.
  destruct (l_nvertices l + 1 <=? INT_MAX); reflexivity.
Qed.

(** *** Properties the builder keeps

    [P] is a property of the locals that does not look at [dfa],
    [nvertices] or [nedges], and of [state_diagram] looks at most at the
    number of adjacency lists. *)
Section Preserves.
Variable P : locals -> Prop.
Hypothesis P_dfa : forall d l, P l -> P (set_l_dfa d l).
Hypothesis P_nvertices : forall n l, P l -> P (set_l_nvertices n l).
Hypothesis P_nedges : forall n l, P l -> P (set_l_nedges n l).
Hypothesis P_state_diagram : forall sd l,
  length (states sd) = length (states (l_state_diagram l)) ->
  P l -> P (set_l_state_diagram sd l).

Lemma preserves_ret {A} (a : A) : preserves P (ret a).
Proof. intros l a' l' H. now inversion H. Qed.

Lemma preserves_bind {A B} (m : M locals A) (k : A -> M locals B) :
  preserves P m -> (forall a, preserves P (k a)) -> preserves P (bind m k).
Proof.
  intros Hm Hk l b l' H HP. unfold bind in H.
  destruct (m l) as [[a l1]| |] eqn:E; try discriminate.
  exact (Hk _ _ _ _ H (Hm _ _ _ E HP)).
Qed.

Lemma preserves_lift {A} (o : outcome A) : preserves P (lift o).
Proof. intros l a l' H. unfold lift in H. destruct o; now inversion H. Qed.

Lemma preserves_index {A} (v : list A) (i : Z) : preserves P (index v i).
Proof.
  intros l a l' H. unfold index in H.
  destruct (at_index v i); [now inversion H|discriminate].
Qed.

Lemma preserves_gets {A} (proj : locals -> A) : preserves P (gets proj).
Proof. intros l a l' H. now inversion H. Qed.

Lemma preserves_incr_int (x : Z) : preserves P (incr_int x).
Proof.
  intros l a l' H. unfold incr_int in H.
  destruct (x + 1 <=? INT_MAX); [now inversion H|discriminate].
Qed.

Lemma preserves_on_l_dfa {A} (m : M DFA A) : preserves P (on_l_dfa m).
Proof.
  intros l a l' H HP. unfold on_l_dfa, zoom in H.
  destruct (m (l_dfa l)) as [[a1 d]| |]; inversion H; subst. now apply P_dfa.
Qed.

Lemma preserves_incr_nvertices : preserves P incr_nvertices.
Proof.
  unfold incr_nvertices.
  apply preserves_bind; [apply preserves_gets|]. intros n.
  apply preserves_bind; [apply preserves_incr_int|]. intros n'.
  intros l a l' H HP. inversion H; subst. now apply P_nvertices.
Qed.

Lemma preserves_incr_nedges : preserves P incr_nedges.
Proof.
  unfold incr_nedges.
  apply preserves_bind; [apply preserves_gets|]. intros n.
  apply preserves_bind; [apply preserves_incr_int|]. intros n'.
  intros l a l' H HP. inversion H; subst. now apply P_nedges.
Qed.

Lemma preserves_insertEdge (state_no weight y : Z) :
  preserves P (on_l_state_diagram (insertEdge state_no weight y)).
Proof.
  intros l a l' H HP. unfold on_l_state_diagram, zoom in H.
  destruct (insertEdge state_no weight y (l_state_diagram l)) as [[u sd]| |] eqn:E;
    inversion H; subst.
  apply insertEdge_Ok in E as (_ & _ & _ & _ & Hlen). now apply P_state_diagram.
Qed.

Lemma preserves_set_degree (state degree_val : Z) :
  preserves P (on_l_state_diagram (set_degree state degree_val)).
Proof.
  intros l a l' H HP. unfold on_l_state_diagram, zoom, set_degree in H.
  destruct (at_index (degree (l_state_diagram l)) state); inversion H; subst.
  now apply P_state_diagram.
Qed.

Lemma preserves_pairs_loop (adj_list_vector : list string) :
  forall state degree_val, preserves P (pairs_loop adj_list_vector state degree_val).
Proof.
  induction adj_list_vector as [|pair' rest IH]; intros state degree_val.
  - apply preserves_ret.
  - cbn [pairs_loop].
    apply preserves_bind; [apply preserves_index|]. intros s0.
    apply preserves_bind; [apply preserves_lift|]. intros weight.
    apply preserves_bind; [apply preserves_index|]. intros s1.
    apply preserves_bind; [apply preserves_lift|]. intros state_no_y.
    apply preserves_bind; [apply preserves_insertEdge|]. intros _.
    apply preserves_bind; [apply preserves_incr_nedges|]. intros _.
    apply preserves_bind; [apply preserves_incr_int|]. intros degree_val'.
    apply IH.
Qed.

Lemma preserves_transition_line (str : string) : preserves P (transition_line str).
Proof.
  unfold transition_line.
  apply preserves_bind; [apply preserves_index|]. intros s0.
  apply preserves_bind; [apply preserves_lift|]. intros state.
  apply preserves_bind; [apply preserves_incr_nvertices|]. intros _.
  apply preserves_bind; [apply preserves_index|]. intros s1.
  apply preserves_bind; [apply preserves_pairs_loop|]. intros degree_val.
  apply preserves_set_degree.
Qed.

(** What a line does before [counter++]. *)
Lemma preserves_line_branch (str : string) (counter : Z) :
  preserves P
    (if counter =? 0 then n <- lift (stoi str) ;; on_l_dfa (setInitialState n)
     else if counter =? 1 then n <- lift (stoi str) ;; on_l_dfa (setFinalState n)
     else transition_line str).
Proof.
  destruct (counter =? 0); [|destruct (counter =? 1)].
  - apply preserves_bind; [apply preserves_lift|]. intros n. apply preserves_on_l_dfa.
  - apply preserves_bind; [apply preserves_lift|]. intros n. apply preserves_on_l_dfa.
  - apply preserves_transition_line.
Qed.
End Preserves.

(** A line that is read moves the counter on by one. *)
Lemma line_body_counter (str : string) (l l' : locals) (u : unit) :
  line_body str l = Ok (u, l') -> l_counter l' = l_counter l + 1.
Proof.
  unfold line_body. unfold bind at 1, gets at 1. unfold bind at 1.
  match goal with |- context [match ?m l with _ => _ end] => set (branch := m) end.
  assert (preserves (fun l0 => l_counter l0 = l_counter l) branch) as Hkeep
    by (subst branch; now apply preserves_line_branch).
  destruct (branch l) as [[u1 l1]| |] eqn:E; try discriminate.
  pose proof (Hkeep _ _ _ E eq_refl) as Hc. cbn beta in Hc.
  unfold incr_counter, bind, gets, incr_int, modify, ret, undefined.
  destruct (l_counter l1 + 1 <=? INT_MAX); [|discriminate].
  intros H. inversion H; subst. cbn. lia.
Qed.

(** The builder never changes the number of adjacency lists. *)
Lemma line_body_wf (str : string) :
  preserves (fun l => wf_diagram (l_state_diagram l)) (line_body str).
Proof.
  unfold line_body. intros l a l' H Hwf.
  unfold bind at 1, gets at 1 in H. unfold bind at 1 in H.
  match type of H with context [match ?m l with _ => _ end] => set (branch := m) in H end.
  assert (preserves (fun l0 => wf_diagram (l_state_diagram l0)) branch) as Hkeep.
  { subst branch. apply preserves_line_branch; try (intros; assumption).
    intros sd l0 Hlen Hl0. unfold wf_diagram in *. cbn. congruence. }
  destruct (branch l) as [[u1 l1]| |] eqn:E; try discriminate.
  pose proof (Hkeep _ _ _ E Hwf) as Hwf1. cbn beta in Hwf1.
  unfold incr_counter, bind, gets, incr_int, modify, ret, undefined in H.
  destruct (l_counter l1 + 1 <=? INT_MAX); [|discriminate].
  inversion H; subst. exact Hwf1.
Qed.

Lemma lines_loop_wf (lines : list string) :
  preserves (fun l => wf_diagram (l_state_diagram l)) (lines_loop lines).
Proof.
  induction lines as [|str rest IH]; intros l a l' H Hwf.
  - cbn in H. now inversion H; subst.
  - cbn [lines_loop] in H. unfold bind in H.
    destruct (line_body str l) as [[u l1]| |] eqn:E; try discriminate.
    apply (IH _ _ _ H). exact (line_body_wf _ _ _ _ E Hwf).
Qed.

(** An automaton the builder returns has its [MAXVERT+1] adjacency lists. *)
Lemma build_dfa_from_file_wf (u : Indeterminate) (fs : filesystem)
    (filename : string) (d : DFA) :
  build_dfa_from_file u fs filename = Ok d -> wf_diagram (state_diagram d).
Proof.
  unfold build_dfa_from_file, build_body. unfold bind at 1.
  match goal with |- context [lines_loop _ ?init] => set (l0 := init) end.
  destruct (lines_loop (file_lines fs filename) l0) as [[u1 l1]| |] eqn:E; try discriminate.
  pose proof (lines_loop_wf _ _ _ _ E (StateDiagram_new_wf u)) as Hwf. cbn beta in Hwf.
  cbn. intros H. inversion H; subst. exact Hwf.
Qed.

(** A built automaton whose initial state and edge targets have a slot is
    closed. *)
Lemma build_dfa_from_file_closed (u : Indeterminate) (fs : filesystem)
    (filename : string) (d : DFA) :
  build_dfa_from_file u fs filename = Ok d ->
  in_range (q d) -> targets_in_range (state_diagram d) -> closed d.
Proof.
  intros Hb Hq Ht. split; [exact (build_dfa_from_file_wf _ _ _ _ Hb)|now split].
Qed.

(** A transition line without a colon is never got past. *)
Lemma line_body_no_colon (str : string) (l : locals) :
  has_char str ":" = false -> 2 <= l_counter l ->
  line_body str l = Undefined \/ exists e, line_body str l = Throw e.
Proof.
  intros Hno Hc.
  assert (line_body str l =
          match str with
          | EmptyString => Undefined
          | _ => match stoi str with Throw e => Throw e | _ => Undefined end
          end) as ->.
  { unfold line_body, bind, gets.
    destruct (l_counter l =? 0) eqn:E0; [apply Z.eqb_eq in E0; lia|].
    destruct (l_counter l =? 1) eqn:E1; [apply Z.eqb_eq in E1; lia|].
    rewrite (transition_line_no_colon _ _ Hno).
    destruct str as [|c rest]; [reflexivity|].
    now destruct (stoi (String c rest)). }
  destruct str as [|c rest]; [now left|].
  destruct (stoi (String c rest)) as [state|e|]; [now left|right; now exists e|now left].
Qed.

Lemma lines_loop_no_colon (lines : list string) :
  forall (l : locals) (i : nat) (line : string),
    lines !! i = Some line -> has_char line ":" = false ->
    2 <= l_counter l + Z.of_nat i ->
    lines_loop lines l = Undefined \/ exists e, lines_loop lines l = Throw e.
Proof.
  induction lines as [|str rest IH]; intros l i line Hi Hno Hc; [discriminate|].
  cbn [lines_loop]. unfold bind.
  destruct i as [|i].
  - cbn in Hi. inversion Hi; subst str.
    destruct (line_body_no_colon line l Hno) as [->|[e ->]]; [lia|now left|right; now exists e].
  - cbn in Hi.
    destruct (line_body str l) as [[u l1]| |] eqn:E; [|right; now eexists|now left].
    apply line_body_counter in E.
    apply (IH l1 i line Hi Hno). lia.
Qed.

(** C3 (amended). A description with a transition line that lacks the
    colon never builds an automaton.  The code has no format error of its
    own and keeps no line reference: the run ends in an exception of
    [std::stoi] or in an out-of-bounds vector access.  At the line itself
    it is the access [split_at_colon[0]] for an empty line, the exception
    of [std::stoi] when the line does not start with a number, and the
    access [split_at_colon[1]] otherwise, as for the line "1 97 2". *)
Theorem missing_colon_never_builds
    (u : Indeterminate) (fs : filesystem) (filename : string) (i : nat) (line : string) :
  file_lines fs filename !! i = Some line ->
  (2 <= i)%nat ->
  has_char line ":" = false ->
  (build_dfa_from_file u fs filename = Undefined
   \/ exists e, build_dfa_from_file u fs filename = Throw e)
  /\ (forall l : locals,
        transition_line line l =
        match line with
        | EmptyString => Undefined
        | _ => match stoi line with
               | Throw e => Throw e
               | _ => Undefined
               end
        end).
Proof.
  intros Hline Hi Hno. split; [|intros l; now apply transition_line_no_colon].
  unfold build_dfa_from_file, build_body, bind.
  match goal with |- context [lines_loop _ ?init] => set (l0 := init) end.
  assert (2 <= l_counter l0 + Z.of_nat i) as Hc by (subst l0; cbn [l_counter]; lia).
  destruct (lines_loop_no_colon _ l0 i line Hline Hno Hc) as [H|[e H]]; rewrite H.
  - now left.
  - right. now exists e.
Qed.

Lemma missing_colon_never_builds_witness :
  file_lines (single_file no_colon_text) "dfa.gph" !! 2%nat = Some "1 97 2"
  /\ has_char "1 97 2" ":" = false
  /\ (build_dfa_from_file zeros (single_file no_colon_text) "dfa.gph" = Undefined
      \/ exists e, build_dfa_from_file zeros (single_file no_colon_text) "dfa.gph" = Throw e).
Proof.
  assert (file_lines (single_file no_colon_text) "dfa.gph" !! 2%nat = Some "1 97 2")
    as Hline by (vm_compute; reflexivity).
  assert (has_char "1 97 2" ":" = false) as Hno by (vm_compute; reflexivity).
  split; [exact Hline|]. split; [exact Hno|].
  apply (missing_colon_never_builds zeros (single_file no_colon_text) "dfa.gph" 2 "1 97 2"
           Hline (le_n 2) Hno).
Defined.

(** C3, as stated, fails: on a description whose third line is "1 97 2"
    the builder raises no error at all, with or without a reference to
    the line; it reads [split_at_colon[1]] of a one-element vector. *)
Lemma missing_colon_is_not_an_error :
  file_lines (single_file no_colon_text) "dfa.gph" !! 2%nat = Some "1 97 2"
  /\ has_char "1 97 2" ":" = false
  /\ split "1 97 2" ":" = ["1 97 2"]
  /\ build_dfa_from_file zeros (single_file no_colon_text) "dfa.gph" = Undefined
  /\ ~ exists e, build_dfa_from_file zeros (single_file no_colon_text) "dfa.gph" = Throw e.
Proof.
  assert (build_dfa_from_file zeros (single_file no_colon_text) "dfa.gph" = Undefined) as H
    by (vm_compute; reflexivity).
  repeat split; try (vm_compute; reflexivity).
  rewrite H. intros [e He]. discriminate.
Qed.

(* ===================================================================== *)
(** ** More on the state diagram                                          *)
(* ===================================================================== *)

Lemma getState_Ok (index : Z) (sd sd' : StateDiagram) (adjList : list (Z * Z)) :
  getState index sd = Ok (adjList, sd') <->
  at_index (states sd) index = Some adjList /\ sd' = sd.
Proof.
  unfold getState. destruct (at_index (states sd) index) as [a|].
  - split; [intros H; inversion H; now subst|intros [H ->]; inversion H; now subst].
  - split; [discriminate|intros [H _]; discriminate].
Qed.

Lemma insertEdge_is_Ok (state_no weight y : Z) (sd : StateDiagram) :
  is_Some (at_index (states sd) state_no) <->
  exists sd', insertEdge state_no weight y sd = Ok (tt, sd').
Proof.
  unfold insertEdge. destruct (at_index (states sd) state_no) as [a|].
  - split; [eauto|intros _; eauto].
  - split; [intros [x Hx]; discriminate|intros [sd' H]; discriminate].
Qed.

(** X1. [insertEdge] on a state that has a slot succeeds; [getState] then
    returns the former list with the new pair at its end; every other
    state keeps its list, and the array keeps its size.  The members
    [degree], [nvertices] and [nedges] are not touched: [insertEdge]
    does not count the edge. *)
Theorem insertEdge_then_getState
    (sd : StateDiagram) (state_no weight y : Z) (adjList : list (Z * Z)) :
  getState state_no sd = Ok (adjList, sd) ->
  exists sd',
    insertEdge state_no weight y sd = Ok (tt, sd')
    /\ getState state_no sd' = Ok (adjList ++ [(weight, y)], sd')
    /\ (forall other, other <> state_no ->
          at_index (states sd') other = at_index (states sd) other)
    /\ length (states sd') = length (states sd)
    /\ degree sd' = degree sd /\ nvertices sd' = nvertices sd /\ nedges sd' = nedges sd.
Proof.
  intros Hget. apply getState_Ok in Hget as [Hadj _].
  assert (is_Some (at_index (states sd) state_no)) as Hsome by (rewrite Hadj; eauto).
  apply (insertEdge_is_Ok state_no weight y) in Hsome as [sd' Hins].
  exists sd'. split; [exact Hins|].
  assert (degree sd' = degree sd /\ nvertices sd' = nvertices sd /\ nedges sd' = nedges sd)
    as Hfields.
  { unfold insertEdge in Hins. rewrite Hadj in Hins. inversion Hins. now cbn. }
  apply insertEdge_Ok in Hins as (state & Hs & Hs' & Hother & Hlen).
  rewrite Hadj in Hs. inversion Hs; subst state.
  split; [now apply getState_Ok|].
  split; [exact Hother|]. split; [exact Hlen|exact Hfields].
Qed.

Lemma insertEdge_then_getState_witness :
  getState 3 (StateDiagram_new zeros) = Ok ([], StateDiagram_new zeros)
  /\ exists sd',
       insertEdge 3 98 1 (StateDiagram_new zeros) = Ok (tt, sd')
       /\ getState 3 sd' = Ok ([(98, 1)], sd')
       /\ nedges sd' = 0.
Proof.
  assert (getState 3 (StateDiagram_new zeros) = Ok ([], StateDiagram_new zeros)) as H
    by (vm_compute; reflexivity).
  split; [exact H|].
  destruct (insertEdge_then_getState _ 3 98 1 [] H)
    as (sd' & Hins & Hget & _ & _ & _ & _ & Hne).
  exists sd'. split; [exact Hins|]. split; [exact Hget|]. rewrite Hne. reflexivity.
Defined.

(** X2. The array has the slots 0 to [MAXVERT] and no other: on a diagram
    with its [MAXVERT+1] lists, [getState] and [insertEdge] return exactly
    for the state numbers in that range, state 0 included; for any other
    number, a negative one included, they index out of bounds. *)
Theorem slots_are_zero_to_MAXVERT (sd : StateDiagram) (index weight y : Z) :
  wf_diagram sd ->
  (in_range index <-> exists adjList, getState index sd = Ok (adjList, sd))
  /\ (in_range index <-> exists sd', insertEdge index weight y sd = Ok (tt, sd'))
  /\ (~ in_range index ->
      getState index sd = Undefined /\ insertEdge index weight y sd = Undefined).
Proof.
  intros Hwf.
  assert (in_range index <-> is_Some (at_index (states sd) index)) as Hiff.
  { split; [now apply at_index_in_range|].
    intros Hs. destruct (decide (in_range index)) as [|Hno]; [assumption|].
    rewrite (at_index_out_of_range _ _ Hwf Hno) in Hs. now destruct Hs. }
  split; [|split].
  - rewrite Hiff. split.
    + intros [adj Hadj]. exists adj. apply getState_Ok. now split.
    + intros [adj Hget]. apply getState_Ok in Hget as [Hadj _]. rewrite Hadj. eauto.
  - rewrite Hiff. apply insertEdge_is_Ok.
  - intros Hno. unfold getState, insertEdge.
    now rewrite (at_index_out_of_range _ _ Hwf Hno).
Qed.

Lemma slots_are_zero_to_MAXVERT_witness :
  wf_diagram (StateDiagram_new zeros)
  /\ (exists adjList, getState 0 (StateDiagram_new zeros) = Ok (adjList, StateDiagram_new zeros))
  /\ getState 1001 (StateDiagram_new zeros) = Undefined
  /\ insertEdge (-1) 97 2 (StateDiagram_new zeros) = Undefined.
Proof.
  pose proof (StateDiagram_new_wf zeros) as Hwf.
  split; [exact Hwf|]. split.
  - apply (slots_are_zero_to_MAXVERT _ 0 0 0 Hwf). unfold in_range, MAXVERT. lia.
  - split.
    + apply (slots_are_zero_to_MAXVERT _ 1001 0 0 Hwf). unfold in_range, MAXVERT. lia.
    + apply (slots_are_zero_to_MAXVERT _ (-1) 97 2 Hwf). unfold in_range, MAXVERT. lia.
Defined.

Lemma edges_from_cons_same (state_no weight y : Z) (edges : list (Z * Z * Z)) :
  edges_from state_no ((state_no, weight, y) :: edges) = (weight, y) :: edges_from state_no edges.
Proof. unfold edges_from. rewrite filter_cons_True by reflexivity. reflexivity. Qed.

Lemma edges_from_cons_other (index state_no weight y : Z) (edges : list (Z * Z * Z)) :
  index <> state_no ->
  edges_from index ((state_no, weight, y) :: edges) = edges_from index edges.
Proof.
  intros Hne. unfold edges_from. rewrite filter_cons_False; [reflexivity|].
  cbn. congruence.
Qed.

Lemma insert_edges_lists (edges : list (Z * Z * Z)) :
  forall (sd sd' : StateDiagram) (u : unit) (index : Z),
    insert_edges edges sd = Ok (u, sd') ->
    at_index (states sd') index
    = (fun adjList => adjList ++ edges_from index edges) <$> at_index (states sd) index.
Proof.
  induction edges as [|[[state_no weight] y] rest IH]; intros sd sd' u index Hrun.
  - cbn in Hrun. inversion Hrun; subst. unfold edges_from. cbn.
    destruct (at_index (states sd') index); cbn; [now rewrite app_nil_r|reflexivity].
  - cbn [insert_edges] in Hrun. unfold bind in Hrun.
    destruct (insertEdge state_no weight y sd) as [[u1 sd1]| |] eqn:E1; try discriminate.
    apply insertEdge_Ok in E1 as (state & Hs & Hs1 & Hother & _).
    rewrite (IH _ _ _ index Hrun).
    destruct (decide (index = state_no)) as [->|Hne].
    + rewrite Hs1, Hs, edges_from_cons_same. cbn. now rewrite <- app_assoc.
    + rewrite (Hother _ Hne), edges_from_cons_other by assumption. reflexivity.
Qed.

Lemma insert_edges_is_Ok (edges : list (Z * Z * Z)) :
  forall sd : StateDiagram,
    wf_diagram sd ->
    (Forall (fun e : Z * Z * Z => in_range e.1.1) edges
     <-> exists sd', insert_edges edges sd = Ok (tt, sd')).
Proof.
  induction edges as [|[[state_no weight] y] rest IH]; intros sd Hwf.
  - split; [intros _; now exists sd|constructor].
  - cbn [insert_edges]. unfold bind. split.
    + intros Hall. inversion Hall as [|e l Hr Hrest]; subst. cbn in Hr.
      destruct (at_index_in_range _ _ Hwf Hr) as [adj Hadj].
      assert (is_Some (at_index (states sd) state_no)) as Hs by (rewrite Hadj; eauto).
      apply (insertEdge_is_Ok state_no weight y) in Hs as [sd1 H1]. rewrite H1.
      apply IH; [|assumption].
      apply insertEdge_Ok in H1 as (_ & _ & _ & _ & Hlen).
      unfold wf_diagram in *. congruence.
    + intros [sd' Hrun].
      destruct (insertEdge state_no weight y sd) as [[[] sd1]| |] eqn:E1; try discriminate.
      assert (in_range state_no) as Hr.
      { destruct (decide (in_range state_no)) as [|Hno]; [assumption|].
        unfold insertEdge in E1.
        now rewrite (at_index_out_of_range _ _ Hwf Hno) in E1. }
      constructor; [exact Hr|].
      apply (IH sd1); [|eauto].
      apply insertEdge_Ok in E1 as (_ & _ & _ & _ & Hlen).
      unfold wf_diagram in *. congruence.
Qed.

(** X3. A sequence of [insertEdge] calls on a fresh diagram succeeds
    exactly when every source state lies in 0..[MAXVERT]; targets and
    weights are not looked at. *)
Theorem insert_edges_succeeds_iff (u : Indeterminate) (edges : list (Z * Z * Z)) :
  Forall (fun e : Z * Z * Z => in_range e.1.1) edges
  <-> exists sd', insert_edges edges (StateDiagram_new u) = Ok (tt, sd').
Proof. apply insert_edges_is_Ok, StateDiagram_new_wf. Qed.

(** X4. After a sequence of [insertEdge] calls on a fresh diagram,
    [getState] returns, for each state in 0..[MAXVERT], the pairs of the
    edges that leave it, in the order of insertion, duplicates kept. *)
Theorem insert_edges_then_getState
    (u : Indeterminate) (edges : list (Z * Z * Z)) (sd' : StateDiagram) (index : Z) :
  insert_edges edges (StateDiagram_new u) = Ok (tt, sd') ->
  in_range index ->
  getState index sd' = Ok (edges_from index edges, sd').
Proof.
  intros Hrun Hr. apply getState_Ok. split; [|reflexivity].
  rewrite (insert_edges_lists _ _ _ _ index Hrun).
  destruct (at_index_in_range _ _ (StateDiagram_new_wf u) Hr) as [adj Hadj].
  rewrite Hadj. cbn. f_equal.
  apply at_index_Some in Hadj as [_ Hadj]. cbn [states StateDiagram_new] in Hadj.
  apply lookup_replicate in Hadj as [-> _]. reflexivity.
Qed.

Lemma insert_edges_then_getState_witness :
  insert_edges [(1, 97, 2); (2, 97, 1); (1, 98, 3); (1, 97, 2)] (StateDiagram_new zeros)
    = Ok (tt, diagram_of zeros [(1, 97, 2); (2, 97, 1); (1, 98, 3); (1, 97, 2)])
  /\ in_range 1
  /\ getState 1 (diagram_of zeros [(1, 97, 2); (2, 97, 1); (1, 98, 3); (1, 97, 2)])
     = Ok ([(97, 2); (98, 3); (97, 2)],
           diagram_of zeros [(1, 97, 2); (2, 97, 1); (1, 98, 3); (1, 97, 2)]).
Proof.
  assert (insert_edges [(1, 97, 2); (2, 97, 1); (1, 98, 3); (1, 97, 2)] (StateDiagram_new zeros)
          = Ok (tt, diagram_of zeros [(1, 97, 2); (2, 97, 1); (1, 98, 3); (1, 97, 2)]))
    as Hrun by (vm_compute; reflexivity).
  assert (in_range 1) as Hr by (unfold in_range, MAXVERT; lia).
  split; [exact Hrun|]. split; [exact Hr|].
  exact (insert_edges_then_getState zeros _ _ 1 Hrun Hr).
Defined.

(* ===================================================================== *)
(** ** More on [execute]                                                  *)
(* ===================================================================== *)

(** X5. A state whose edges all lead back to it, one without edges
    included, is never left: from it the outer loop consumes any input
    and ends where it started. *)
Theorem trap_state_is_never_left
    (d : DFA) (current_state : Z) (adjList : list (Z * Z)) (input : string) :
  at_index (states (state_diagram d)) current_state = Some adjList ->
  (forall state, state ∈ adjList -> state.2 = current_state) ->
  execute_loop input current_state d = Ok (current_state, d).
Proof.
  intros Hadj Hback. induction input as [|symbol rest IH]; [reflexivity|].
  rewrite execute_loop_step, Hadj, scan_none; [exact IH|].
  intros state Hin [_ Hne]. apply Hne. now apply Hback.
Qed.

Lemma trap_state_is_never_left_witness :
  at_index (states (state_diagram (DFA_of (diagram_of zeros [(1, 97, 2); (2, 98, 2)]) 1 2))) 2
    = Some [(98, 2)]
  /\ execute_loop "abba" 2 (DFA_of (diagram_of zeros [(1, 97, 2); (2, 98, 2)]) 1 2)
     = Ok (2, DFA_of (diagram_of zeros [(1, 97, 2); (2, 98, 2)]) 1 2).
Proof.
  assert (at_index (states (state_diagram
            (DFA_of (diagram_of zeros [(1, 97, 2); (2, 98, 2)]) 1 2))) 2 = Some [(98, 2)])
    as Hadj by (vm_compute; reflexivity).
  split; [exact Hadj|].
  apply (trap_state_is_never_left _ 2 [(98, 2)] "abba" Hadj).
  intros state Hin. apply list_elem_of_singleton in Hin as ->. reflexivity.
Defined.

(** X6. The outer loop only follows recorded edges: a set of states that
    contains the start and the target of every edge leaving one of its
    members contains the state the loop ends in, whatever the input. *)
Theorem execute_loop_stays_in_closed_set
    (Inv : Z -> Prop) (d d' : DFA) (input : string) (current_state r : Z) :
  (forall source adjList state,
      Inv source ->
      at_index (states (state_diagram d)) source = Some adjList ->
      state ∈ adjList -> Inv state.2) ->
  Inv current_state ->
  execute_loop input current_state d = Ok (r, d') ->
  Inv r.
Proof.
  intros Hclosed. revert current_state.
  induction input as [|symbol rest IH]; intros cur Hcur Hrun.
  - cbn in Hrun. inversion Hrun; now subst.
  - rewrite execute_loop_step in Hrun.
    destruct (at_index (states (state_diagram d)) cur) as [adj|] eqn:Hadj; [|discriminate].
    apply (IH (scan adj (int_of_char symbol) cur)); [|exact Hrun].
    destruct (scan_spec (int_of_char symbol) cur adj)
      as [(before & state & after & -> & _ & _ & ->)|[_ ->]]; [|exact Hcur].
    apply (Hclosed cur _ state Hcur Hadj).
    apply elem_of_app. right. left.
Qed.

Lemma execute_loop_stays_in_closed_set_witness :
  execute_loop "abab" 1 (ab_dfa zeros) = Ok (3, ab_dfa zeros)
  /\ (3 = 1 \/ 3 = 2 \/ 3 = 3).
Proof.
  assert (execute_loop "abab" 1 (ab_dfa zeros) = Ok (3, ab_dfa zeros)) as Hrun
    by (vm_compute; reflexivity).
  split; [exact Hrun|].
  apply (execute_loop_stays_in_closed_set (fun s => s = 1 \/ s = 2 \/ s = 3)
           (ab_dfa zeros) (ab_dfa zeros) "abab" 1 3); [|now left|exact Hrun].
  intros source adjList state Hsrc Hadj Hin.
  destruct Hsrc as [-> | [-> | ->] ]; vm_compute in Hadj; inversion Hadj; subst adjList;
    repeat (apply elem_of_cons in Hin as [->|Hin]; [cbn; lia|]); inversion Hin.
Defined.

Lemma plain_execute_loop_step (d : DFA) (symbol : ascii) (rest : string) (current_state : Z) :
  plain_execute_loop (String symbol rest) current_state d =
  match at_index (states (state_diagram d)) current_state with
  | Some adjList =>
      plain_execute_loop rest (plain_scan adjList (int_of_char symbol) current_state) d
  | None => Undefined
  end.
Proof.
  cbn [plain_execute_loop]. unfold bind. rewrite getState_on_dfa.
  now destruct (at_index (states (state_diagram d)) current_state).
Qed.

(** With one pair per weight the test on the target changes nothing. *)
Lemma scan_plain_scan (adjList : list (Z * Z)) (symbol_val current_state : Z) :
  NoDup adjList.*1 ->
  scan adjList symbol_val current_state = plain_scan adjList symbol_val current_state.
Proof.
  induction adjList as [|[weight target] rest IH]; intros Hnd; [reflexivity|].
  cbn [fmap list_fmap fst] in Hnd. apply NoDup_cons in Hnd as [Hnotin Hnd].
  cbn [scan plain_scan fst snd].
  destruct (weight =? symbol_val) eqn:Ew; cbn [andb]; [|now apply IH].
  destruct (target =? current_state) eqn:Et; cbn [negb]; [|reflexivity].
  apply Z.eqb_eq in Ew, Et. subst.
  apply scan_none. intros [w t] Hin [Hw _]. cbn in Hw. subst w.
  apply Hnotin. apply list_elem_of_fmap. now exists (symbol_val, t).
Qed.

(** X7. On a table that has, for every state, at most one edge per
    symbol, the test [state.second != current_state] cannot be observed:
    [execute]'s loop computes what the comment above it describes, the
    move to the first pair whose weight is the symbol. *)
Theorem execute_loop_is_plain_first_match
    (d : DFA) (input : string) (current_state : Z) :
  Forall (fun adjList : list (Z * Z) => NoDup adjList.*1) (states (state_diagram d)) ->
  execute_loop input current_state d = plain_execute_loop input current_state d.
Proof.
  intros Hnd. revert current_state.
  induction input as [|symbol rest IH]; intros cur; [reflexivity|].
  rewrite execute_loop_step, plain_execute_loop_step.
  destruct (at_index (states (state_diagram d)) cur) as [adj|] eqn:Hadj; [|reflexivity].
  rewrite scan_plain_scan; [apply IH|].
  apply at_index_Some in Hadj as [_ Hadj].
  exact (Forall_lookup_1 _ _ _ _ Hnd Hadj).
Qed.

Lemma execute_loop_is_plain_first_match_witness :
  Forall (fun adjList : list (Z * Z) => NoDup adjList.*1)
         (states (state_diagram loop_only_dfa))
  /\ execute_loop "aab" 1 loop_only_dfa = plain_execute_loop "aab" 1 loop_only_dfa.
Proof.
  assert (Forall (fun adjList : list (Z * Z) => NoDup adjList.*1)
                 (states (state_diagram loop_only_dfa))) as Hnd
    by (apply (bool_decide_unpack _); vm_compute; exact I).
  split; [exact Hnd|].
  exact (execute_loop_is_plain_first_match loop_only_dfa "aab" 1 Hnd).
Defined.

Lemma execute_loop_same_table (d1 d2 : DFA) (input : string) :
  states (state_diagram d1) = states (state_diagram d2) ->
  forall current_state,
    returned (execute_loop input current_state d1)
    = returned (execute_loop input current_state d2).
Proof.
  intros Hst. induction input as [|symbol rest IH]; intros cur; [reflexivity|].
  rewrite !execute_loop_step, Hst.
  destruct (at_index (states (state_diagram d2)) cur); [apply IH|reflexivity].
Qed.

(** X8. What [execute] returns depends on the adjacency lists, the
    initial state and the final state only: two automata that agree on
    these return the same, whatever their [degree], [nvertices] and
    [nedges] hold. *)
Theorem execute_ignores_counters (d1 d2 : DFA) (input : string) :
  states (state_diagram d1) = states (state_diagram d2) ->
  q d1 = q d2 ->
  f d1 = f d2 ->
  returned (execute input d1) = returned (execute input d2).
Proof.
  intros Hst Hq Hf. rewrite !execute_unfold.
  pose proof (execute_loop_same_table d1 d2 input Hst (q d1)) as Hloop.
  rewrite <- Hq.
  destruct (execute_loop input (q d1) d1) as [[r1 d1']| |] eqn:E1;
    destruct (execute_loop input (q d1) d2) as [[r2 d2']| |] eqn:E2;
    cbn in Hloop; try discriminate; [|now inversion Hloop|reflexivity].
  apply execute_loop_unchanged in E1, E2. subst d1' d2'.
  inversion Hloop; subst. cbn. now rewrite Hf.
Qed.

Lemma execute_ignores_counters_witness :
  returned (execute "ab" (ab_dfa zeros))
  = returned (execute "ab" (ab_dfa (mkIndeterminate 7 7 7 7 (fun _ => 7)))).
Proof.
  apply execute_ignores_counters; reflexivity.
Defined.

(* ===================================================================== *)
(** ** More on [split], [trim] and [std::stoi]                            *)
(* ===================================================================== *)

Lemma string_app_cons (c : ascii) (s t : string) : String c s +:+ t = String c (s +:+ t).
Proof. reflexivity. Qed.

Lemma string_app_nil_l (t : string) : EmptyString +:+ t = t.
Proof. reflexivity. Qed.

Lemma string_app_nil_r (s : string) : s +:+ EmptyString = s.
Proof. induction s as [|c s IH]; [reflexivity|]. now rewrite string_app_cons, IH. Qed.

Lemma string_app_assoc (s1 s2 s3 : string) : (s1 +:+ s2) +:+ s3 = s1 +:+ (s2 +:+ s3).
Proof. induction s1 as [|c s1 IH]; [reflexivity|]. now rewrite !string_app_cons, IH. Qed.

(** One turn of the loop of [split]. *)
Lemma split_cons (delim c : ascii) (rest : string) :
  split (String c rest) delim =
  (getline_chars (String c rest) delim).1
    :: split (getline_chars (String c rest) delim).2 delim.
Proof.
  unfold split at 1. cbn [split_loop getline].
  pose proof (getline_chars_shrinks delim c rest) as Hlt.
  destruct (getline_chars (String c rest) delim) as [item remaining].
  cbn [fst snd] in *. f_equal. unfold split. apply split_loop_enough; cbn in *; lia.
Qed.

(** Induction along the turns of the loop of [split]. *)
Lemma split_ind (delim : ascii) (P : string -> list string -> Prop) :
  P EmptyString [] ->
  (forall c rest,
      P (getline_chars (String c rest) delim).2
        (split (getline_chars (String c rest) delim).2 delim) ->
      P (String c rest)
        ((getline_chars (String c rest) delim).1
           :: split (getline_chars (String c rest) delim).2 delim)) ->
  forall s, P s (split s delim).
Proof.
  intros Hnil Hcons s.
  remember (String.length s) as n eqn:Hn. revert s Hn.
  induction (lt_wf n) as [n _ IH]. intros s Hn.
  destruct s as [|c rest]; [exact Hnil|].
  rewrite split_cons. apply Hcons.
  apply (IH (String.length (getline_chars (String c rest) delim).2)); [|reflexivity].
  subst n. apply getline_chars_shrinks.
Qed.

(** What [std::getline] extracts: the text before the first delimiter and
    the text after it, or everything when there is no delimiter. *)
Lemma getline_chars_spec (delim : ascii) (s : string) :
  has_char (getline_chars s delim).1 delim = false
  /\ ((has_char s delim = true
       /\ s = (getline_chars s delim).1 +:+ String delim (getline_chars s delim).2)
      \/ (has_char s delim = false
          /\ (getline_chars s delim).1 = s /\ (getline_chars s delim).2 = EmptyString)).
Proof.
  induction s as [|c rest IH].
  - cbn. split; [reflexivity|]. right. now repeat split.
  - cbn [getline_chars has_char]. destruct (Ascii.eqb c delim) eqn:E.
    + cbn. split; [reflexivity|]. left. split; [reflexivity|].
      apply Ascii.eqb_eq in E. now subst.
    + destruct (getline_chars rest delim) as [item remaining]. cbn [fst snd orb] in *.
      destruct IH as [Hitem IH]. split; [cbn [has_char]; now rewrite E|].
      destruct IH as [[Hhas ->]|(Hhas & -> & ->)].
      * left. now split.
      * right. now repeat split.
Qed.

(** X9. No item [split] returns contains the delimiter. *)
Theorem split_items_have_no_delimiter (s : string) (delim : ascii) :
  Forall (fun item => has_char item delim = false) (split s delim).
Proof.
  apply (split_ind delim (fun _ items => Forall (fun item => has_char item delim = false) items)).
  - constructor.
  - intros c rest IH. constructor; [|exact IH].
    apply getline_chars_spec.
Qed.

Lemma ends_with_cons (c x : ascii) (rest : string) :
  rest <> EmptyString -> ends_with (String x rest) c = ends_with rest c.
Proof. destruct rest; [congruence|reflexivity]. Qed.

Lemma ends_with_app_delim (item remaining : string) (delim : ascii) :
  ends_with (item +:+ String delim remaining) delim =
  match remaining with
  | EmptyString => true
  | _ => ends_with remaining delim
  end.
Proof.
  induction item as [|x item IH].
  - rewrite string_app_nil_l. destruct remaining; [cbn; apply Ascii.eqb_refl|reflexivity].
  - change (String x item +:+ String delim remaining)
      with (String x (item +:+ String delim remaining)).
    rewrite ends_with_cons; [exact IH|]. now destruct item.
Qed.

Lemma ends_with_has_char (s : string) (c : ascii) :
  ends_with s c = true -> has_char s c = true.
Proof.
  induction s as [|x rest IH]; [discriminate|].
  cbn [has_char]. destruct rest as [|y rest'].
  - cbn. intros ->. reflexivity.
  - rewrite ends_with_cons by discriminate. intros H. rewrite (IH H). apply orb_true_r.
Qed.

(** X10. [split] loses nothing but the delimiters: the items joined by
    the delimiter give the string back, up to one delimiter at the very
    end, which [split] drops (so "a:" and "a" split alike, and the empty
    string has no item). *)
Theorem split_then_join (s : string) (delim : ascii) :
  s = join delim (split s delim)
      +:+ (if ends_with s delim then String delim EmptyString else EmptyString)
  /\ (split s delim = [] <-> s = EmptyString).
Proof.
  apply (split_ind delim (fun s items =>
    s = join delim items
        +:+ (if ends_with s delim then String delim EmptyString else EmptyString)
    /\ (items = [] <-> s = EmptyString))).
  - split; [reflexivity|tauto].
  - intros c rest [IHeq IHnil]. split; [|split; discriminate].
    destruct (getline_chars_spec delim (String c rest)) as [_ Hspec].
    destruct (getline_chars (String c rest) delim) as [item remaining].
    cbn [fst snd] in *.
    destruct Hspec as [[_ Hs]|(Hno & -> & ->)].
    + rewrite Hs at 2. rewrite ends_with_app_delim. rewrite Hs at 1.
      destruct remaining as [|x remaining'].
      * reflexivity.
      * destruct (split (String x remaining') delim) as [|item' items] eqn:Esplit.
        { destruct IHnil as [Hcontra _]. now specialize (Hcontra eq_refl). }
        cbn [join]. rewrite string_app_assoc, string_app_cons.
        f_equal. f_equal. exact IHeq.
    + change (split EmptyString delim) with (@nil string). cbn [join].
      destruct (ends_with (String c rest) delim) eqn:E.
      * apply ends_with_has_char in E. congruence.
      * now rewrite string_app_nil_r.
Qed.

Lemma ltrim_spec (s : string) :
  starts_with_space (ltrim s) = false
  /\ exists lead, all_space lead = true /\ s = lead +:+ ltrim s.
Proof.
  induction s as [|c rest [IHs (lead & Hlead & IHeq)]].
  - split; [reflexivity|]. now exists EmptyString.
  - cbn [ltrim]. destruct (isspace c) eqn:E.
    + split; [exact IHs|]. exists (String c lead). split; [cbn; now rewrite E|].
      rewrite string_app_cons. now f_equal.
    + split; [cbn; exact E|]. now exists EmptyString.
Qed.

Lemma rtrim_spec (s : string) :
  ends_with_space (rtrim s) = false
  /\ (starts_with_space s = false -> starts_with_space (rtrim s) = false)
  /\ exists tail, all_space tail = true /\ s = rtrim s +:+ tail.
Proof.
  induction s as [|c rest (IHe & _ & tail & Htail & IHeq)].
  - split; [reflexivity|]. split; [tauto|]. now exists EmptyString.
  - cbn [rtrim]. destruct (rtrim rest) as [|x r] eqn:Er.
    + rewrite string_app_nil_l in IHeq. subst rest.
      destruct (isspace c) eqn:E.
      * split; [reflexivity|]. split; [reflexivity|].
        exists (String c tail). split; [cbn; now rewrite E|reflexivity].
      * split; [cbn; exact E|]. split; [tauto|]. now exists tail.
    + split; [exact IHe|]. split; [tauto|].
      exists tail. split; [exact Htail|]. rewrite string_app_cons. now f_equal.
Qed.

(** X11. [trim_copy] removes white space from the two ends and nothing
    else: the string is the result between two runs of white space, and
    the result neither starts nor ends with white space. *)
Theorem trim_copy_strips_both_ends (s : string) :
  starts_with_space (trim_copy s) = false
  /\ ends_with_space (trim_copy s) = false
  /\ exists lead tail,
       all_space lead = true /\ all_space tail = true
       /\ s = lead +:+ trim_copy s +:+ tail.
Proof.
  unfold trim_copy, trim.
  destruct (ltrim_spec s) as (Hstart & lead & Hlead & Hs).
  destruct (rtrim_spec (ltrim s)) as (Hend & Hkeep & tail & Htail & Hl).
  split; [now apply Hkeep|]. split; [exact Hend|].
  exists lead, tail. split; [exact Hlead|]. split; [exact Htail|].
  rewrite <- Hl. exact Hs.
Qed.

Lemma ltrim_all_space (ws s : string) :
  all_space ws = true -> ltrim (ws +:+ s) = ltrim s.
Proof.
  induction ws as [|c ws IH]; [reflexivity|].
  cbn [all_space]. intros H. apply andb_true_iff in H as [Hc Hws].
  rewrite string_app_cons. cbn [ltrim]. rewrite Hc. now apply IH.
Qed.

(** X12. [std::stoi] skips white space before the number: putting white
    space in front of a string changes neither the number read nor the
    exception thrown. *)
Theorem stoi_skips_leading_space (ws s : string) :
  all_space ws = true ->
  stoi (ws +:+ s) = stoi s.
Proof.
  intros Hws. unfold stoi. now rewrite ltrim_all_space.
Qed.

Lemma stoi_skips_leading_space_witness :
  all_space "  " = true /\ stoi ("  " +:+ "97 2") = stoi "97 2".
Proof.
  split; [reflexivity|]. apply stoi_skips_leading_space. reflexivity.
Defined.

Lemma read_digits_app (s t : string) :
  starts_with_digit t = false ->
  forall acc, read_digits (s +:+ t) acc = read_digits s acc.
Proof.
  intros Ht. induction s as [|c s IH]; intros acc.
  - rewrite string_app_nil_l. destruct t as [|x t]; [reflexivity|].
    cbn in Ht. cbn [read_digits]. now rewrite Ht.
  - rewrite string_app_cons. cbn [read_digits]. destruct (isdigit c); [apply IH|reflexivity].
Qed.

Lemma ltrim_app (s t : string) :
  ltrim s <> EmptyString -> ltrim (s +:+ t) = ltrim s +:+ t.
Proof.
  induction s as [|c s IH]; [intros H; now contradiction H|].
  rewrite string_app_cons. cbn [ltrim]. destruct (isspace c); [exact IH|reflexivity].
Qed.

Lemma stoi_unfold (str : string) :
  stoi str =
  match read_digits (split_sign (ltrim str)).2 None with
  | None => Throw invalid_argument
  | Some v =>
      let v := if (split_sign (ltrim str)).1 then - v else v in
      if (INT_MIN <=? v) && (v <=? INT_MAX) then Ok v else Throw out_of_range
  end.
Proof.
  unfold stoi, split_sign. destruct (ltrim str) as [|c r]; [reflexivity|].
  destruct c as [[] [] [] [] [] [] [] []]; reflexivity.
Qed.

Lemma split_sign_app (s t : string) :
  s <> EmptyString ->
  split_sign (s +:+ t) = ((split_sign s).1, (split_sign s).2 +:+ t).
Proof.
  destruct s as [|c r]; [congruence|]. intros _. rewrite string_app_cons.
  unfold split_sign. destruct c as [[] [] [] [] [] [] [] []]; reflexivity.
Qed.

(** X13. [std::stoi] reads the leading number and ignores what follows
    it: when a string gives a number, so does the string with any text
    appended that does not begin with a digit, and the number is the
    same and fits an [int]. *)
Theorem stoi_ignores_what_follows (s t : string) (v : Z) :
  stoi s = Ok v ->
  starts_with_digit t = false ->
  stoi (s +:+ t) = Ok v /\ INT_MIN <= v <= INT_MAX.
Proof.
  intros Hs Ht. split.
  - assert (ltrim s <> EmptyString) as Hne.
    { intros Hempty. rewrite stoi_unfold, Hempty in Hs. discriminate. }
    rewrite <- Hs, !stoi_unfold, (ltrim_app _ _ Hne), (split_sign_app _ _ Hne).
    cbn [fst snd]. now rewrite read_digits_app.
  - rewrite stoi_unfold in Hs.
    destruct (read_digits (split_sign (ltrim s)).2 None) as [n|]; [|discriminate].
    cbv zeta in Hs.
    destruct ((INT_MIN <=? (if (split_sign (ltrim s)).1 then - n else n))
              && ((if (split_sign (ltrim s)).1 then - n else n) <=? INT_MAX)) eqn:E;
      [|discriminate].
    inversion Hs; subst. apply andb_true_iff in E as [E1 E2].
    apply Z.leb_le in E1, E2. lia.
Qed.

Lemma stoi_ignores_what_follows_witness :
  stoi "1" = Ok 1
  /\ starts_with_digit " 97 2" = false
  /\ stoi ("1" +:+ " 97 2") = Ok 1.
Proof.
  assert (stoi "1" = Ok 1) as H1 by reflexivity.
  assert (starts_with_digit " 97 2" = false) as H2 by reflexivity.
  split; [exact H1|]. split; [exact H2|].
  apply (stoi_ignores_what_follows "1" " 97 2" 1 H1 H2).
Defined.

(* ===================================================================== *)
(** ** What the builder builds                                            *)
(* ===================================================================== *)

Lemma edges_from_app (index : Z) (e1 e2 : list (Z * Z * Z)) :
  edges_from index (e1 ++ e2) = edges_from index e1 ++ edges_from index e2.
Proof. unfold edges_from. now rewrite filter_app, fmap_app. Qed.

Lemma edges_from_line_triples (index state : Z) (edges : list (Z * Z)) :
  edges_from index (line_triples (state, edges)) = pairs_for index state edges.
Proof.
  unfold line_triples, pairs_for. cbn [fst snd].
  induction edges as [|[w y] edges IH]; [now destruct (decide (index = state))|].
  cbn [fmap list_fmap fst snd]. destruct (decide (index = state)) as [->|Hne].
  - rewrite edges_from_cons_same. now f_equal.
  - rewrite edges_from_cons_other by assumption. exact IH.
Qed.

Lemma edges_from_all_triples_cons
    (index state : Z) (edges : list (Z * Z)) (parsed : list (Z * list (Z * Z))) :
  edges_from index (all_triples ((state, edges) :: parsed))
  = pairs_for index state edges ++ edges_from index (all_triples parsed).
Proof.
  unfold all_triples. cbn [fmap list_fmap concat].
  now rewrite edges_from_app, edges_from_line_triples.
Qed.

Lemma StateDiagram_new_wf_degree (u : Indeterminate) : wf_degree (StateDiagram_new u).
Proof.
  unfold wf_degree. cbn [degree StateDiagram_new]. now rewrite length_map, length_seq.
Qed.

Lemma insertEdge_lists (state_no weight y : Z) (sd sd' : StateDiagram) :
  insertEdge state_no weight y sd = Ok (tt, sd') ->
  (forall index,
      at_index (states sd') index
      = (fun a => a ++ pairs_for index state_no [(weight, y)]) <$> at_index (states sd) index)
  /\ length (states sd') = length (states sd)
  /\ degree sd' = degree sd.
Proof.
  intros Hins.
  assert (degree sd' = degree sd) as Hdeg.
  { unfold insertEdge in Hins. destruct (at_index (states sd) state_no); [|discriminate].
    now inversion Hins. }
  apply insertEdge_Ok in Hins as (state & Hs & Hs' & Hother & Hlen).
  split; [|now split]. intros index. unfold pairs_for.
  destruct (decide (index = state_no)) as [->|Hne].
  - now rewrite Hs', Hs.
  - rewrite (Hother _ Hne). destruct (at_index (states sd) index); cbn; [|reflexivity].
    now rewrite app_nil_r.
Qed.

(** One turn of the loop over the pairs of a line, for a pair that reads
    as two numbers. *)
Lemma pairs_loop_step
    (pair' : string) (rest : list string) (state degree_val : Z) (l : locals)
    (edge : Z * Z) (sd1 : StateDiagram) :
  pair_parses pair' edge ->
  insertEdge state edge.1 edge.2 (l_state_diagram l) = Ok (tt, sd1) ->
  l_nedges l + 1 <= INT_MAX ->
  degree_val + 1 <= INT_MAX ->
  pairs_loop (pair' :: rest) state degree_val l =
  pairs_loop rest state (degree_val + 1)
             (set_l_nedges (l_nedges l + 1) (set_l_state_diagram sd1 l)).
Proof.
  intros (s0 & s1 & more & Hsplit & H0 & H1) Hins Hne Hdv.
  cbn [pairs_loop]. rewrite Hsplit.
  unfold bind, index, lift, ret. cbn [at_index Z.leb Z.compare].
  change ((s0 :: s1 :: more) !! Z.to_nat 0) with (Some s0).
  change ((s0 :: s1 :: more) !! Z.to_nat 1) with (Some s1).
  cbv beta iota. rewrite H0, H1.
  unfold on_l_state_diagram, zoom. rewrite Hins.
  unfold incr_nedges, bind, gets, incr_int, modify, ret.
  cbn [l_nedges set_l_state_diagram].
  apply Z.leb_le in Hne, Hdv. rewrite Hne, Hdv. reflexivity.
Qed.

Lemma pairs_loop_parsed (pairs : list string) (edges : list (Z * Z)) :
  Forall2 pair_parses pairs edges ->
  forall (state degree_val : Z) (l : locals),
    in_range state ->
    wf_diagram (l_state_diagram l) ->
    l_nedges l + Z.of_nat (length edges) <= INT_MAX ->
    degree_val + Z.of_nat (length edges) <= INT_MAX ->
    exists l',
      pairs_loop pairs state degree_val l = Ok (degree_val + Z.of_nat (length edges), l')
      /\ l_counter l' = l_counter l /\ l_dfa l' = l_dfa l
      /\ l_nvertices l' = l_nvertices l
      /\ l_nedges l' = l_nedges l + Z.of_nat (length edges)
      /\ length (states (l_state_diagram l')) = length (states (l_state_diagram l))
      /\ degree (l_state_diagram l') = degree (l_state_diagram l)
      /\ (forall index,
            at_index (states (l_state_diagram l')) index
            = (fun a => a ++ pairs_for index state edges)
                <$> at_index (states (l_state_diagram l)) index).
Proof.
  induction 1 as [|pair' edge pairs edges Hpair _ IH]; intros state dv l Hr Hwf Hne Hdv.
  - exists l. cbn [length Z.of_nat]. rewrite !Z.add_0_r. repeat split; try reflexivity.
    intros index. unfold pairs_for.
    destruct (decide (index = state)), (at_index (states (l_state_diagram l)) index);
      cbn; now rewrite ?app_nil_r.
  - cbn [length] in Hne, Hdv |- *.
    destruct (at_index_in_range _ _ Hwf Hr) as [adj Hadj].
    assert (is_Some (at_index (states (l_state_diagram l)) state)) as Hs
      by (rewrite Hadj; eauto).
    apply (insertEdge_is_Ok state edge.1 edge.2) in Hs as [sd1 Hins].
    rewrite (pairs_loop_step _ _ _ _ _ _ _ Hpair Hins) by lia.
    destruct (insertEdge_lists _ _ _ _ _ Hins) as (Hlists & Hlen & Hdeg).
    destruct (IH state (dv + 1)
                 (set_l_nedges (l_nedges l + 1) (set_l_state_diagram sd1 l)) Hr)
      as (l' & Hrun & Hc & Hd & Hnv & Hn & Hlen' & Hdeg' & Hlists').
    { unfold wf_diagram in *. cbn. congruence. }
    { cbn. lia. }
    { lia. }
    exists l'. cbn in Hc, Hd, Hnv, Hn, Hlen', Hdeg', Hlists'.
    split; [rewrite Hrun; do 2 f_equal; lia|].
    split; [exact Hc|]. split; [exact Hd|]. split; [exact Hnv|].
    split; [lia|]. split; [congruence|]. split; [congruence|].
    intros index. rewrite Hlists', Hlists.
    destruct (at_index (states (l_state_diagram l)) index); cbn; [|reflexivity].
    f_equal. rewrite <- app_assoc. f_equal. unfold pairs_for.
    destruct edge as [w y]. now destruct (decide (index = state)).
Qed.

Lemma at_index_degree_in_range (sd : StateDiagram) (index : Z) :
  wf_degree sd -> in_range index -> is_Some (at_index (degree sd) index).
Proof.
  unfold wf_degree, in_range, MAXVERT. intros Hwf Hr.
  apply at_index_is_Some. rewrite Hwf. lia.
Qed.

(** A transition line that reads as a state in range and a list of pairs. *)
Lemma transition_line_parsed
    (str : string) (state : Z) (edges : list (Z * Z)) (l : locals) :
  line_parses str state edges ->
  in_range state ->
  wf_diagram (l_state_diagram l) ->
  wf_degree (l_state_diagram l) ->
  l_nvertices l + 1 <= INT_MAX ->
  l_nedges l + Z.of_nat (length edges) <= INT_MAX ->
  Z.of_nat (length edges) <= INT_MAX ->
  exists l',
    transition_line str l = Ok (tt, l')
    /\ l_counter l' = l_counter l /\ l_dfa l' = l_dfa l
    /\ l_nvertices l' = l_nvertices l + 1
    /\ l_nedges l' = l_nedges l + Z.of_nat (length edges)
    /\ wf_diagram (l_state_diagram l') /\ wf_degree (l_state_diagram l')
    /\ at_index (degree (l_state_diagram l')) state = Some (Z.of_nat (length edges))
    /\ (forall index,
          at_index (states (l_state_diagram l')) index
          = (fun a => a ++ pairs_for index state edges)
              <$> at_index (states (l_state_diagram l)) index).
Proof.
  intros (s0 & s1 & more & Hsplit & H0 & Hpairs) Hr Hwf Hwd Hnv Hne Hdv.
  destruct (pairs_loop_parsed _ _ Hpairs state 0 (set_l_nvertices (l_nvertices l + 1) l) Hr)
    as (l2 & Hrun & Hc & Hd & Hnv2 & Hne2 & Hlen & Hdeg & Hlists);
    [exact Hwf|cbn; lia|lia|].
  cbn in Hc, Hd, Hnv2, Hne2, Hlen, Hdeg, Hlists.
  assert (wf_degree (l_state_diagram l2)) as Hwd2
    by (unfold wf_degree in *; congruence).
  destruct (at_index_degree_in_range _ _ Hwd2 Hr) as [old Hold].
  eexists. split.
  - unfold transition_line. rewrite Hsplit.
    unfold bind at 1. unfold index at 1. cbn [at_index Z.leb Z.compare].
    change ((s0 :: s1 :: more) !! Z.to_nat 0) with (Some s0). unfold ret at 1.
    unfold bind at 1. unfold lift at 1. rewrite H0.
    unfold bind at 1.
    assert (incr_nvertices l = Ok (tt, set_l_nvertices (l_nvertices l + 1) l)) as ->.
    { unfold incr_nvertices, bind, gets, incr_int, modify, ret.
      apply Z.leb_le in Hnv. now rewrite Hnv. }
    unfold bind at 1. unfold index at 1. cbn [at_index Z.leb Z.compare].
    change ((s0 :: s1 :: more) !! Z.to_nat 1) with (Some s1). unfold ret at 1.
    unfold bind at 1. rewrite Hrun.
    unfold on_l_state_diagram, zoom, set_degree. rewrite Hold. reflexivity.
  - cbn. split; [exact Hc|]. split; [exact Hd|]. split; [exact Hnv2|].
    split; [lia|].
    split; [unfold wf_diagram in *; cbn; congruence|].
    split; [unfold wf_degree in *; cbn; rewrite length_insert; congruence|].
    split; [|exact Hlists].
    apply at_index_Some in Hold as [Hnn Hold].
    apply at_index_Some. split; [exact Hnn|].
    rewrite Z.add_0_l. apply list_lookup_insert_eq. now apply lookup_lt_Some in Hold.
Qed.

(** The transition lines of a file, each reading as a state in range and
    a list of pairs. *)
Lemma lines_loop_parsed (tlines : list string) (parsed : list (Z * list (Z * Z))) :
  Forall2 (fun str p => line_parses str p.1 p.2 /\ in_range p.1) tlines parsed ->
  forall l : locals,
    2 <= l_counter l ->
    wf_diagram (l_state_diagram l) ->
    wf_degree (l_state_diagram l) ->
    l_counter l + Z.of_nat (length tlines) <= INT_MAX ->
    l_nvertices l + Z.of_nat (length tlines) <= INT_MAX ->
    l_nedges l + Z.of_nat (length (all_triples parsed)) <= INT_MAX ->
    Z.of_nat (length (all_triples parsed)) <= INT_MAX ->
    exists l',
      lines_loop tlines l = Ok (tt, l')
      /\ l_dfa l' = l_dfa l
      /\ l_nvertices l' = l_nvertices l + Z.of_nat (length tlines)
      /\ l_nedges l' = l_nedges l + Z.of_nat (length (all_triples parsed))
      /\ wf_diagram (l_state_diagram l')
      /\ (forall index,
            at_index (states (l_state_diagram l')) index
            = (fun a => a ++ edges_from index (all_triples parsed))
                <$> at_index (states (l_state_diagram l)) index).
Proof.
  induction 1 as [|str [state edges] tlines parsed [Hline Hr] _ IH];
    intros l Hc Hwf Hwd Hcnt Hnv Hne Hdv.
  - exists l. cbn [length Z.of_nat all_triples fmap list_fmap concat].
    rewrite !Z.add_0_r. repeat split; try reflexivity; try assumption.
    intros index. destruct (at_index (states (l_state_diagram l)) index); cbn;
      now rewrite ?app_nil_r.
  - cbn [fst snd] in Hline, Hr.
    assert (length (all_triples ((state, edges) :: parsed))
            = (length edges + length (all_triples parsed))%nat) as Hlen.
    { unfold all_triples. cbn [fmap list_fmap concat].
      rewrite length_app. unfold line_triples. cbn [snd]. now rewrite length_fmap. }
    rewrite Hlen in *. cbn [length] in Hcnt, Hnv |- *.
    destruct (transition_line_parsed str state edges l Hline Hr Hwf Hwd)
      as (l1 & Hrun & Hc1 & Hd1 & Hnv1 & Hne1 & Hwf1 & Hwd1 & _ & Hlists1); try lia.
    assert (line_body str l = Ok (tt, set_l_counter (l_counter l + 1) l1)) as Hbody.
    { unfold line_body, bind, gets.
      destruct (l_counter l =? 0) eqn:E0; [apply Z.eqb_eq in E0; lia|].
      destruct (l_counter l =? 1) eqn:E1; [apply Z.eqb_eq in E1; lia|].
      rewrite Hrun. unfold incr_counter, bind, gets, incr_int, modify, ret.
      rewrite Hc1.
      assert ((l_counter l + 1 <=? INT_MAX) = true) as -> by (apply Z.leb_le; lia).
      reflexivity. }
    destruct (IH (set_l_counter (l_counter l + 1) l1))
      as (l' & Hrun' & Hd' & Hnv' & Hne' & Hwf' & Hlists'); cbn; try assumption; try lia.
    exists l'.
    cbn [l_dfa l_nvertices l_nedges l_state_diagram l_counter set_l_counter]
      in Hd', Hnv', Hne', Hlists'.
    split; [cbn [lines_loop]; unfold bind; now rewrite Hbody|].
    split; [congruence|]. split; [lia|]. split; [lia|]. split; [exact Hwf'|].
    intros index. rewrite Hlists', Hlists1.
    destruct (at_index (states (l_state_diagram l)) index); cbn; [|reflexivity].
    f_equal. rewrite <- app_assoc. f_equal.
    symmetry. exact (edges_from_all_triples_cons index state edges parsed).
Qed.

(** The first and the second line of the file. *)
Lemma line_body_initial (str : string) (l : locals) (n : Z) :
  l_counter l = 0 -> stoi str = Ok n ->
  line_body str l =
  Ok (tt, set_l_counter 1
            (set_l_dfa {| state_diagram := state_diagram (l_dfa l);
                          q := n; f := f (l_dfa l) |} l)).
Proof.
  intros Hc Hn. unfold line_body, bind, gets. rewrite Hc. cbn [Z.eqb].
  unfold lift. rewrite Hn. unfold on_l_dfa, zoom, setInitialState.
  unfold incr_counter, bind, gets, incr_int, modify, ret.
  cbn [l_counter set_l_dfa]. rewrite Hc. reflexivity.
Qed.

Lemma line_body_final (str : string) (l : locals) (n : Z) :
  l_counter l = 1 -> stoi str = Ok n ->
  line_body str l =
  Ok (tt, set_l_counter 2
            (set_l_dfa {| state_diagram := state_diagram (l_dfa l);
                          q := q (l_dfa l); f := n |} l)).
Proof.
  intros Hc Hn. unfold line_body, bind, gets. rewrite Hc. cbn [Z.eqb Pos.eqb].
  unfold lift. rewrite Hn. unfold on_l_dfa, zoom, setFinalState.
  unfold incr_counter, bind, gets, incr_int, modify, ret.
  cbn [l_counter set_l_dfa]. rewrite Hc. reflexivity.
Qed.

(** X14. A description that reads as intended builds what it describes.
    When the first two lines start with numbers, every further line reads
    as a state in 0..[MAXVERT], a colon and pairs of numbers separated by
    bars, and no counter overflows, the builder returns an automaton with
    that initial and that final state whose adjacency list for each state
    holds the pairs of all lines of that state, in file order; what it
    stores in [nvertices] and [nedges] is the number of transition lines
    and of pairs added to whatever the uninitialised locals held. *)
Theorem build_reads_description
    (u : Indeterminate) (fs : filesystem) (filename : string)
    (line0 line1 : string) (tlines : list string)
    (init_state final_state : Z) (parsed : list (Z * list (Z * Z))) :
  file_lines fs filename = line0 :: line1 :: tlines ->
  stoi line0 = Ok init_state ->
  stoi line1 = Ok final_state ->
  Forall2 (fun str p => line_parses str p.1 p.2 /\ in_range p.1) tlines parsed ->
  2 + Z.of_nat (length tlines) <= INT_MAX ->
  indet_nvertices u + Z.of_nat (length tlines) <= INT_MAX ->
  indet_nedges u + Z.of_nat (length (all_triples parsed)) <= INT_MAX ->
  Z.of_nat (length (all_triples parsed)) <= INT_MAX ->
  exists d,
    build_dfa_from_file u fs filename = Ok d
    /\ q d = init_state /\ f d = final_state
    /\ (forall index, in_range index ->
          getState index (state_diagram d)
          = Ok (edges_from index (all_triples parsed), state_diagram d))
    /\ nvertices (state_diagram d) = indet_nvertices u + Z.of_nat (length tlines)
    /\ nedges (state_diagram d) = indet_nedges u + Z.of_nat (length (all_triples parsed)).
Proof.
  intros Hlines H0 H1 Hparsed Hcnt Hnv Hne Hdv.
  unfold build_dfa_from_file, build_body. rewrite Hlines.
  match goal with |- context [bind (lines_loop _) _ ?init] => set (l0 := init) end.
  assert (lines_loop (line0 :: line1 :: tlines) l0
          = lines_loop tlines
              (set_l_counter 2
                 (set_l_dfa {| state_diagram := StateDiagram_new u;
                               q := init_state; f := final_state |} l0))) as Hhead.
  { cbn [lines_loop]. unfold bind.
    rewrite (line_body_initial line0 l0 init_state eq_refl H0).
    rewrite (line_body_final line1
               (set_l_counter 1
                  (set_l_dfa {| state_diagram := state_diagram (l_dfa l0);
                                q := init_state; f := f (l_dfa l0) |} l0))
               final_state eq_refl H1).
    reflexivity. }
  destruct (lines_loop_parsed tlines parsed Hparsed
              (set_l_counter 2
                 (set_l_dfa {| state_diagram := StateDiagram_new u;
                               q := init_state; f := final_state |} l0)))
    as (l' & Hrun & Hd & Hnv' & Hne' & Hwf' & Hlists);
    [cbn; lia|apply StateDiagram_new_wf|apply StateDiagram_new_wf_degree
    |cbn; lia|cbn; lia|cbn; lia|exact Hdv|].
  cbn [l_dfa l_nvertices l_nedges l_state_diagram set_l_counter set_l_dfa l0]
    in Hd, Hnv', Hne', Hlists.
  eexists. split.
  - unfold bind. rewrite Hhead, Hrun. unfold gets, on_l_state_diagram, on_l_dfa, zoom,
      modify, setStateDiagram. cbn. reflexivity.
  - cbn. rewrite Hd. cbn. split; [reflexivity|]. split; [reflexivity|].
    split; [|split; assumption].
    intros index Hr. apply getState_Ok. split; [|reflexivity]. cbn.
    rewrite Hlists.
    destruct (at_index_in_range _ _ (StateDiagram_new_wf u) Hr) as [adj Hadj].
    rewrite Hadj. cbn. f_equal.
    apply at_index_Some in Hadj as [_ Hadj]. cbn [states StateDiagram_new] in Hadj.
    apply lookup_replicate in Hadj as [-> _]. reflexivity.
Qed.

Ltac compute_split :=
  match goal with
  | |- context [split ?s ?c] =>
      let items := eval vm_compute in (split s c) in
      change (split s c) with items
  end.

Ltac pair_reads :=
  do 3 eexists; split; [vm_compute; reflexivity|split; vm_compute; reflexivity].

Ltac line_reads :=
  split; [|unfold in_range, MAXVERT; cbn; lia];
  do 3 eexists; split; [vm_compute; reflexivity|];
  split; [vm_compute; reflexivity|];
  compute_split; repeat (constructor; [pair_reads|]); constructor.

Lemma build_reads_description_witness :
  file_lines (single_file ab_text) "dfa.gph"
    = ["1"; "2"; "1: 97 2 | 98 3"; "2: 97 1"; "3: 98 1"]
  /\ Forall2 (fun str p => line_parses str p.1 p.2 /\ in_range p.1)
             ["1: 97 2 | 98 3"; "2: 97 1"; "3: 98 1"]
             [(1, [(97, 2); (98, 3)]); (2, [(97, 1)]); (3, [(98, 1)])]
  /\ exists d,
       build_dfa_from_file zeros (single_file ab_text) "dfa.gph" = Ok d
       /\ q d = 1 /\ f d = 2
       /\ getState 1 (state_diagram d) = Ok ([(97, 2); (98, 3)], state_diagram d)
       /\ nvertices (state_diagram d) = 3
       /\ nedges (state_diagram d) = 4.
Proof.
  assert (file_lines (single_file ab_text) "dfa.gph"
          = ["1"; "2"; "1: 97 2 | 98 3"; "2: 97 1"; "3: 98 1"]) as Hlines
    by (vm_compute; reflexivity).
  assert (Forall2 (fun str p => line_parses str p.1 p.2 /\ in_range p.1)
                  ["1: 97 2 | 98 3"; "2: 97 1"; "3: 98 1"]
                  [(1, [(97, 2); (98, 3)]); (2, [(97, 1)]); (3, [(98, 1)])]) as Hparsed
    by (repeat (constructor; [line_reads|]); constructor).
  split; [exact Hlines|]. split; [exact Hparsed|].
  destruct (build_reads_description zeros (single_file ab_text) "dfa.gph"
              "1" "2" _ 1 2 _ Hlines eq_refl eq_refl Hparsed)
    as (d & Hb & Hq & Hf & Hget & Hnv & Hne);
    [vm_compute; discriminate|vm_compute; discriminate
    |vm_compute; discriminate|vm_compute; discriminate|].
  exists d. split; [exact Hb|]. split; [exact Hq|]. split; [exact Hf|].
  split; [apply Hget; unfold in_range, MAXVERT; lia|].
  split; [exact Hnv|exact Hne].
Defined.

Lemma line_body_first_Ok (str : string) (l l' : locals) (u : unit) :
  l_counter l = 0 -> line_body str l = Ok (u, l') ->
  exists n, stoi str = Ok n
    /\ l' = set_l_counter 1
              (set_l_dfa {| state_diagram := state_diagram (l_dfa l);
                            q := n; f := f (l_dfa l) |} l).
Proof.
  intros Hc Hrun. destruct (stoi str) as [n|e|] eqn:E.
  - exists n. split; [reflexivity|].
    rewrite (line_body_initial str l n Hc E) in Hrun. now inversion Hrun.
  - unfold line_body, bind, gets, lift in Hrun. rewrite Hc, E in Hrun. discriminate.
  - unfold line_body, bind, gets, lift in Hrun. rewrite Hc, E in Hrun. discriminate.
Qed.

Lemma line_body_second_Ok (str : string) (l l' : locals) (u : unit) :
  l_counter l = 1 -> line_body str l = Ok (u, l') ->
  exists n, stoi str = Ok n
    /\ l' = set_l_counter 2
              (set_l_dfa {| state_diagram := state_diagram (l_dfa l);
                            q := q (l_dfa l); f := n |} l).
Proof.
  intros Hc Hrun. destruct (stoi str) as [n|e|] eqn:E.
  - exists n. split; [reflexivity|].
    rewrite (line_body_final str l n Hc E) in Hrun. now inversion Hrun.
  - unfold line_body, bind, gets, lift in Hrun. rewrite Hc, E in Hrun. discriminate.
  - unfold line_body, bind, gets, lift in Hrun. rewrite Hc, E in Hrun. discriminate.
Qed.

(** From the third line on nothing assigns to [dfa]. *)
Lemma lines_loop_keeps_dfa (lines : list string) :
  forall (l l' : locals) (u : unit),
    2 <= l_counter l -> lines_loop lines l = Ok (u, l') -> l_dfa l' = l_dfa l.
Proof.
  induction lines as [|str rest IH]; intros l l' u Hc Hrun.
  - cbn in Hrun. now inversion Hrun.
  - cbn [lines_loop] in Hrun. unfold bind in Hrun.
    destruct (line_body str l) as [[u1 l1]| |] eqn:E; try discriminate.
    pose proof (line_body_counter _ _ _ _ E) as Hc1.
    rewrite (IH l1 l' u) by (assumption || lia).
    unfold line_body, bind, gets in E.
    destruct (l_counter l =? 0) eqn:E0; [apply Z.eqb_eq in E0; lia|].
    destruct (l_counter l =? 1) eqn:E1; [apply Z.eqb_eq in E1; lia|].
    destruct (transition_line str l) as [[u2 l2]| |] eqn:Et; try discriminate.
    assert (l_dfa l2 = l_dfa l) as Hd.
    { assert (preserves (fun l0 => l_dfa l0 = l_dfa l) (transition_line str)) as Hp
        by (apply preserves_transition_line; intros; assumption).
      exact (Hp _ _ _ Et eq_refl). }
    unfold incr_counter, bind, gets, incr_int, modify, ret in E.
    destruct (l_counter l2 + 1 <=? INT_MAX); [|discriminate].
    inversion E; subst. exact Hd.
Qed.

(** X15. In an automaton the builder returns, the initial state is the
    number at the start of the first line and the final state the number
    at the start of the second; lines after the second never change them.
    A file with one line leaves the final state uninitialised, a file
    without lines both. *)
Theorem build_takes_states_from_first_lines
    (u : Indeterminate) (fs : filesystem) (filename : string) (d : DFA) :
  build_dfa_from_file u fs filename = Ok d ->
  match file_lines fs filename with
  | [] => q d = indet_q u /\ f d = indet_f u
  | [line0] => stoi line0 = Ok (q d) /\ f d = indet_f u
  | line0 :: line1 :: _ => stoi line0 = Ok (q d) /\ stoi line1 = Ok (f d)
  end.
Proof.
  unfold build_dfa_from_file, build_body. unfold bind at 1.
  match goal with |- context [lines_loop _ ?init] => set (l0 := init) end.
  destruct (lines_loop (file_lines fs filename) l0) as [[u1 l']| |] eqn:Erun;
    try discriminate.
  unfold bind, gets, on_l_state_diagram, on_l_dfa, zoom, modify, setStateDiagram.
  cbn. intros Hd. inversion Hd; subst d; clear Hd. cbn [q f with_state_diagram].
  destruct (file_lines fs filename) as [|line0 [|line1 rest]].
  - cbn in Erun. inversion Erun; subst l'. now split.
  - cbn [lines_loop] in Erun. unfold bind in Erun.
    destruct (line_body line0 l0) as [[u2 l1]| |] eqn:E0; try discriminate.
    apply line_body_first_Ok in E0 as (n & Hn & ->); [|reflexivity].
    cbn in Erun. inversion Erun; subst l'. now split.
  - cbn [lines_loop] in Erun. unfold bind in Erun.
    destruct (line_body line0 l0) as [[u2 l1]| |] eqn:E0; try discriminate.
    apply line_body_first_Ok in E0 as (n0 & Hn0 & ->); [|reflexivity].
    destruct (line_body line1 _) as [[u3 l2]| |] eqn:E1; try discriminate.
    apply line_body_second_Ok in E1 as (n1 & Hn1 & ->); [|reflexivity].
    apply lines_loop_keeps_dfa in Erun; [|cbn; lia].
    rewrite Erun. now split.
Qed.

Lemma build_takes_states_from_first_lines_witness :
  build_dfa_from_file (mkIndeterminate 11 22 0 0 (fun _ => 0)) (single_file "7") "dfa.gph"
    = Ok (DFA_of (StateDiagram_new (mkIndeterminate 11 22 0 0 (fun _ => 0))) 7 22)
  /\ stoi "7" = Ok 7
  /\ f (DFA_of (StateDiagram_new (mkIndeterminate 11 22 0 0 (fun _ => 0))) 7 22) = 22.
Proof.
  assert (build_dfa_from_file (mkIndeterminate 11 22 0 0 (fun _ => 0))
            (single_file "7") "dfa.gph"
          = Ok (DFA_of (StateDiagram_new (mkIndeterminate 11 22 0 0 (fun _ => 0))) 7 22))
    as Hb by (vm_compute; reflexivity).
  split; [exact Hb|].
  exact (build_takes_states_from_first_lines _ _ _ _ Hb).
Defined.

(** X16. A file that cannot be opened, and an empty file, are no error:
    the builder returns an automaton without edges whose initial and
    final state, [nvertices] and [nedges] hold what the uninitialised
    variables held. *)
Theorem build_without_lines
    (u : Indeterminate) (fs : filesystem) (filename : string) :
  fs filename = None \/ fs filename = Some EmptyString ->
  build_dfa_from_file u fs filename =
  Ok {| state_diagram :=
          {| states := replicate (Z.to_nat (MAXVERT + 1)) [];
             degree := degree (StateDiagram_new u);
             nvertices := indet_nvertices u;
             nedges := indet_nedges u |};
        q := indet_q u;
        f := indet_f u |}.
Proof.
  intros Hfs. unfold build_dfa_from_file, file_lines.
  destruct Hfs as [-> | ->]; reflexivity.
Qed.

Lemma build_without_lines_witness :
  build_dfa_from_file (mkIndeterminate 11 22 33 44 (fun _ => 0)) (fun _ => None) "missing"
  = Ok {| state_diagram :=
            {| states := replicate (Z.to_nat (MAXVERT + 1)) [];
               degree := degree (StateDiagram_new (mkIndeterminate 11 22 33 44 (fun _ => 0)));
               nvertices := 33;
               nedges := 44 |};
          q := 11;
          f := 22 |}.
Proof.
  apply (build_without_lines (mkIndeterminate 11 22 33 44 (fun _ => 0)) (fun _ => None)).
  left. reflexivity.
Defined.

(* ===================================================================== *)
(** ** [printList]                                                        *)
(* ===================================================================== *)

Lemma printList_loop_step (sd : StateDiagram) (i : Z) (rest : list Z) :
  printList_loop (i :: rest) sd =
  match at_index (states sd) i with
  | Some adjList =>
      if i + 1 <=? INT_MAX then
        match printList_loop rest sd with
        | Ok (text, sd') =>
            Ok ((show_int i +:+ ": " +:+ print_pairs adjList +:+ endl) +:+ text, sd')
        | Throw e => Throw e
        | Undefined => Undefined
        end
      else Undefined
  | None => Undefined
  end.
Proof.
  cbn [printList_loop]. unfold bind, gets, index, incr_int, ret, undefined.
  destruct (at_index (states sd) i); [|reflexivity].
  destruct (i + 1 <=? INT_MAX); [|reflexivity].
  destruct (printList_loop rest sd) as [[text sd']| |]; reflexivity.
Qed.

Lemma printList_loop_in_range (sd : StateDiagram) (indices : list Z) :
  wf_diagram sd ->
  Forall in_range indices ->
  exists text, printList_loop indices sd = Ok (text, sd).
Proof.
  intros Hwf. induction 1 as [|i rest Hi _ [text IH]].
  - now exists EmptyString.
  - rewrite printList_loop_step.
    destruct (at_index_in_range _ _ Hwf Hi) as [adj ->].
    assert ((i + 1 <=? INT_MAX) = true) as ->.
    { apply Z.leb_le. unfold in_range, MAXVERT, INT_MAX in *. lia. }
    rewrite IH. eauto.
Qed.

Lemma printList_loop_leaves_range (sd : StateDiagram) (before after : list Z) (i : Z) :
  wf_diagram sd ->
  Forall in_range before ->
  ~ in_range i ->
  printList_loop (before ++ i :: after) sd = Undefined.
Proof.
  intros Hwf Hbefore Hi. induction Hbefore as [|j rest Hj _ IH].
  - cbn [app]. rewrite printList_loop_step.
    now rewrite (at_index_out_of_range _ _ Hwf Hi).
  - cbn [app]. rewrite printList_loop_step, IH.
    destruct (at_index (states sd) j); [|reflexivity].
    now destruct (j + 1 <=? INT_MAX).
Qed.

Lemma seqZ_in_range (n : Z) : n <= MAXVERT -> Forall in_range (seqZ 1 n).
Proof.
  intros Hn. apply Forall_forall. intros i Hi.
  apply list_elem_of_lookup in Hi as [k Hk].
  apply lookup_seqZ in Hk as [-> Hk]. unfold in_range. lia.
Qed.

(** X17. [printList] walks the states 1 to [nvertices] and reads the
    adjacency list of each: on a diagram with its [MAXVERT+1] lists it
    returns, leaving the diagram as it was, exactly when [nvertices] is
    at most [MAXVERT]; with a larger [nvertices] it indexes [states] out
    of bounds. *)
Theorem printList_needs_nvertices_in_range (sd : StateDiagram) :
  wf_diagram sd ->
  (nvertices sd <= MAXVERT <-> exists text, printList sd = Ok (text, sd))
  /\ (MAXVERT < nvertices sd -> printList sd = Undefined).
Proof.
  intros Hwf.
  assert (MAXVERT < nvertices sd -> printList sd = Undefined) as Hbig.
  { intros Hn. unfold printList, bind, gets.
    replace (nvertices sd) with (MAXVERT + (nvertices sd - MAXVERT)) by lia.
    rewrite seqZ_app by (unfold MAXVERT in *; lia).
    rewrite (seqZ_cons (1 + MAXVERT)) by lia.
    apply printList_loop_leaves_range; [exact Hwf|now apply seqZ_in_range|].
    unfold in_range. lia. }
  split; [|exact Hbig]. split.
  - intros Hn. unfold printList, bind, gets.
    apply printList_loop_in_range; [exact Hwf|now apply seqZ_in_range].
  - intros [text Hrun].
    destruct (decide (nvertices sd <= MAXVERT)) as [|Hn]; [assumption|].
    rewrite Hbig in Hrun by lia. discriminate.
Qed.

Lemma printList_needs_nvertices_in_range_witness :
  wf_diagram (with_nvertices 2 (diagram_of zeros ab_edges))
  /\ printList (with_nvertices 2 (diagram_of zeros ab_edges))
     = Ok ("1: 97 2 98 3 " +:+ endl +:+ "2: 97 1 " +:+ endl,
           with_nvertices 2 (diagram_of zeros ab_edges))
  /\ wf_diagram (with_nvertices 1001 (diagram_of zeros ab_edges))
  /\ printList (with_nvertices 1001 (diagram_of zeros ab_edges)) = Undefined.
Proof.
  assert (wf_diagram (with_nvertices 2 (diagram_of zeros ab_edges))) as Hwf2
    by (vm_compute; reflexivity).
  assert (wf_diagram (with_nvertices 1001 (diagram_of zeros ab_edges))) as Hwf
    by (vm_compute; reflexivity).
  split; [exact Hwf2|]. split; [vm_compute; reflexivity|]. split; [exact Hwf|].
  apply (printList_needs_nvertices_in_range _ Hwf). vm_compute. reflexivity.
Defined.

Lemma printList_loop_same_lists (sd1 sd2 : StateDiagram) (indices : list Z) :
  Forall (fun i => at_index (states sd1) i = at_index (states sd2) i) indices ->
  returned (printList_loop indices sd1) = returned (printList_loop indices sd2).
Proof.
  induction 1 as [|i rest Hi _ IH]; [reflexivity|].
  rewrite !printList_loop_step, Hi.
  destruct (at_index (states sd2) i); [|reflexivity].
  destruct (i + 1 <=? INT_MAX); [|reflexivity].
  destruct (printList_loop rest sd1) as [[t1 s1]| |],
           (printList_loop rest sd2) as [[t2 s2]| |];
    cbn in IH |- *; try discriminate; try reflexivity; now inversion IH.
Qed.

(** X18. What [printList] writes depends on [nvertices] and on the
    adjacency lists of the states 1 to [nvertices] only: the edges of
    state 0, and of any state above [nvertices], are never printed. *)
Theorem printList_prints_states_1_to_nvertices (sd1 sd2 : StateDiagram) :
  nvertices sd1 = nvertices sd2 ->
  (forall i, 1 <= i <= nvertices sd1 ->
             at_index (states sd1) i = at_index (states sd2) i) ->
  returned (printList sd1) = returned (printList sd2).
Proof.
  intros Hn Hsame. unfold printList, bind, gets. rewrite <- Hn.
  apply printList_loop_same_lists. apply Forall_forall. intros i Hi.
  apply list_elem_of_lookup in Hi as [k Hk].
  apply lookup_seqZ in Hk as [-> Hk]. apply Hsame. lia.
Qed.

Lemma printList_prints_states_1_to_nvertices_witness :
  returned (printList (with_nvertices 2 (diagram_of zeros ab_edges)))
  = returned (printList (with_nvertices 2
                (diagram_of zeros ((0, 99, 5) :: ab_edges ++ [(3, 97, 3)])))).
Proof.
  apply printList_prints_states_1_to_nvertices; [reflexivity|].
  intros i Hi. cbn [nvertices with_nvertices] in Hi.
  assert (i = 1 \/ i = 2) as [-> | ->] by lia; vm_compute; reflexivity.
Defined.

(* ===================================================================== *)
(** ** Numbers written and read back                                      *)
(* ===================================================================== *)

Lemma pretty_N_char_digit (k : N) :
  (k < 10)%N ->
  isdigit (pretty_N_char k) = true /\ digit_val (pretty_N_char k) = Z.of_N k.
Proof.
  intros Hk.
  assert (k = 0 \/ k = 1 \/ k = 2 \/ k = 3 \/ k = 4 \/ k = 5 \/ k = 6 \/ k = 7
          \/ k = 8 \/ k = 9)%N as Hcases by lia.
  repeat (destruct Hcases as [-> | Hcases]; [split; reflexivity|]).
  subst k. split; reflexivity.
Qed.

(** The digits [pretty_N_go] puts in front of [s] are read back as the
    number, and the first of them is a digit. *)
Lemma read_digits_pretty_N_go (x : N) :
  forall (s : string) (acc : option Z),
    (0 < x)%N ->
    (exists m, read_digits (pretty_N_go x s) acc
               = read_digits s (Some (default 0 acc * m + Z.of_N x)))
    /\ starts_with_digit (pretty_N_go x s) = true.
Proof.
  induction (N.lt_wf_0 x) as [x _ IH]. intros s acc Hx.
  rewrite (pretty_N_go_step x s Hx).
  destruct (pretty_N_char_digit (x `mod` 10)%N) as [Hdig Hval];
    [apply N.mod_upper_bound; lia|].
  destruct (decide (x `div` 10 = 0)%N) as [Hz|Hnz].
  - rewrite Hz, pretty_N_go_0. split; [|cbn; exact Hdig].
    exists 10. cbn [read_digits]. rewrite Hdig, Hval. do 2 f_equal.
    assert (x `mod` 10 = x)%N as -> by (apply N.mod_small; apply N.div_small_iff in Hz; lia).
    lia.
  - destruct (IH (x `div` 10)%N) with (s := String (pretty_N_char (x `mod` 10)) s) (acc := acc)
      as [[m Hm] Hstart]; [apply N.div_lt; lia|now apply N.neq_0_lt_0|].
    split; [|exact Hstart].
    exists (10 * m). rewrite Hm. cbn [read_digits]. rewrite Hdig, Hval.
    do 2 f_equal. cbn [default from_option].
    rewrite (N.div_mod x 10) at 3 by lia.
    rewrite N2Z.inj_add, N2Z.inj_mul. change (Z.of_N 10) with 10%Z. unfold id. ring.
Qed.

Lemma digit_is_no_space (c : ascii) : isdigit c = true -> isspace c = false.
Proof.
  unfold isdigit, isspace. intros H. apply andb_true_iff in H as [H1 H2].
  apply N.leb_le in H1, H2.
  apply orb_false_iff. split.
  - apply andb_false_iff. right. apply N.leb_gt. lia.
  - apply N.eqb_neq. lia.
Qed.

Lemma split_sign_digit (c : ascii) (r : string) :
  isdigit c = true -> split_sign (String c r) = (false, String c r).
Proof.
  unfold split_sign.
  destruct c as [[] [] [] [] [] [] [] []]; intros H; try reflexivity;
    vm_compute in H; discriminate.
Qed.

Lemma stoi_pretty_pos (p : positive) :
  read_digits (pretty (N.pos p)) None = Some (Z.pos p)
  /\ starts_with_digit (pretty (N.pos p)) = true.
Proof.
  unfold pretty, pretty_N. destruct (decide (N.pos p = 0%N)) as [|_]; [discriminate|].
  destruct (read_digits_pretty_N_go (N.pos p) EmptyString None) as [[m Hm] Hstart]; [lia|].
  split; [|exact Hstart]. rewrite Hm. cbn. reflexivity.
Qed.

(** X19. A number written as [std::cout] writes an [int] is read back by
    [std::stoi] as the same number: for every value of an [int], [stoi]
    of its decimal text returns it. *)
Theorem stoi_reads_back_show_int (n : Z) :
  INT_MIN <= n <= INT_MAX ->
  stoi (show_int n) = Ok n.
Proof.
  intros Hn. rewrite stoi_unfold. unfold show_int, pretty, pretty_Z.
  destruct n as [|p|p].
  - reflexivity.
  - destruct (stoi_pretty_pos p) as [Hread Hstart].
    change (pretty p) with (pretty (N.pos p)).
    destruct (pretty (N.pos p)) as [|c r] eqn:E; [discriminate|].
    cbn in Hstart. cbn [ltrim]. rewrite (digit_is_no_space _ Hstart).
    rewrite (split_sign_digit _ _ Hstart). cbn [fst snd]. rewrite Hread.
    cbv zeta.
    assert ((INT_MIN <=? Z.pos p) && (Z.pos p <=? INT_MAX) = true) as ->; [|reflexivity].
    apply andb_true_iff. split; apply Z.leb_le; lia.
  - destruct (stoi_pretty_pos p) as [Hread _].
    change (pretty p) with (pretty (N.pos p)).
    change (ltrim ("-" +:+ pretty (N.pos p))) with ("-" +:+ pretty (N.pos p)).
    change (split_sign ("-" +:+ pretty (N.pos p))) with (true, pretty (N.pos p)).
    cbn [fst snd]. rewrite Hread. cbv zeta.
    change (- Z.pos p) with (Z.neg p).
    assert ((INT_MIN <=? Z.neg p) && (Z.neg p <=? INT_MAX) = true) as ->; [|reflexivity].
    apply andb_true_iff. split; apply Z.leb_le; lia.
Qed.

Lemma stoi_reads_back_show_int_witness :
  INT_MIN <= -2147483648 <= INT_MAX /\ stoi (show_int (-2147483648)) = Ok (-2147483648).
Proof.
  assert (INT_MIN <= -2147483648 <= INT_MAX) as H by (unfold INT_MIN, INT_MAX; lia).
  split; [exact H|]. exact (stoi_reads_back_show_int _ H).
Defined.

Lemma slots_in_range_of_insertEdge
    (state_no weight y : Z) (sd sd' : StateDiagram) :
  wf_diagram sd -> insertEdge state_no weight y sd = Ok (tt, sd') -> in_range state_no.
Proof.
  intros Hwf Hins. destruct (decide (in_range state_no)) as [|Hno]; [assumption|].
  unfold insertEdge in Hins. now rewrite (at_index_out_of_range _ _ Hwf Hno) in Hins.
Qed.

(** *** What a successful run has read *)

Lemma two_items (items : list string) (s0 s1 : string) :
  items !! Z.to_nat 0 = Some s0 -> items !! Z.to_nat 1 = Some s1 ->
  exists more, items = s0 :: s1 :: more.
Proof.
  destruct items as [|a [|b more]]; cbn; intros H0 H1; try discriminate.
  inversion H0; inversion H1; subst. now exists more.
Qed.

Lemma pairs_loop_Ok_inv (pairs : list string) :
  forall (state degree_val : Z) (l l' : locals) (r : Z),
    pairs_loop pairs state degree_val l = Ok (r, l') ->
    wf_diagram (l_state_diagram l) ->
    exists edges,
      Forall2 pair_parses pairs edges
      /\ (pairs <> [] -> in_range state)
      /\ length (states (l_state_diagram l')) = length (states (l_state_diagram l))
      /\ degree (l_state_diagram l') = degree (l_state_diagram l).
Proof.
  induction pairs as [|pair' rest IH]; intros state dv l l' r Hrun Hwf.
  - cbn in Hrun. unfold ret in Hrun. inversion Hrun; subst.
    exists []. split; [constructor|]. split; [congruence|]. now split.
  - cbn [pairs_loop] in Hrun.
    unfold bind, index, lift, ret, undefined, on_l_state_diagram, zoom,
      incr_nedges, gets, incr_int, modify in Hrun.
    cbn [at_index Z.leb Z.compare] in Hrun.
    destruct (split (trim_copy pair') " " !! Z.to_nat 0) as [s0|] eqn:E0; [|discriminate].
    destruct (stoi s0) as [w| |] eqn:Hw; try discriminate.
    destruct (split (trim_copy pair') " " !! Z.to_nat 1) as [s1|] eqn:E1; [|discriminate].
    destruct (stoi s1) as [y| |] eqn:Hy; try discriminate.
    destruct (insertEdge state w y (l_state_diagram l)) as [[[] sd1]| |] eqn:Hins;
      try discriminate.
    unfold bind, ret, undefined in Hrun.
    cbn [l_nedges set_l_state_diagram] in Hrun.
    destruct (l_nedges l + 1 <=? INT_MAX); [|discriminate].
    destruct (dv + 1 <=? INT_MAX); [|discriminate].
    destruct (insertEdge_lists _ _ _ _ _ Hins) as (_ & Hlen & Hdeg).
    apply IH in Hrun as (edges & Hrest & _ & Hlen' & Hdeg');
      [|unfold wf_diagram in *; cbn; congruence].
    cbn [l_state_diagram set_l_nedges set_l_state_diagram] in Hlen', Hdeg'.
    destruct (two_items _ _ _ E0 E1) as [more Hsplit].
    exists ((w, y) :: edges). split; [|split; [|split; congruence]].
    + constructor; [|exact Hrest]. now exists s0, s1, more.
    + intros _. apply (slots_in_range_of_insertEdge _ _ _ _ _ Hwf Hins).
Qed.

Lemma transition_line_Ok_inv (str : string) (l l' : locals) (u : unit) :
  transition_line str l = Ok (u, l') ->
  wf_diagram (l_state_diagram l) ->
  wf_degree (l_state_diagram l) ->
  exists state edges,
    line_parses str state edges /\ in_range state
    /\ wf_diagram (l_state_diagram l') /\ wf_degree (l_state_diagram l').
Proof.
  intros Hrun Hwf Hwd. unfold transition_line in Hrun.
  unfold bind, index, lift, ret, undefined, incr_nvertices, gets, incr_int, modify in Hrun.
  cbn [at_index Z.leb Z.compare] in Hrun.
  destruct (split str ":" !! Z.to_nat 0) as [s0|] eqn:E0; [|discriminate].
  destruct (stoi s0) as [state| |] eqn:Hstate; try discriminate.
  unfold bind, ret, undefined in Hrun.
  destruct (l_nvertices l + 1 <=? INT_MAX); [|discriminate].
  destruct (split str ":" !! Z.to_nat 1) as [s1|] eqn:E1; [|discriminate].
  destruct (pairs_loop (split s1 "|") state 0 (set_l_nvertices (l_nvertices l + 1) l))
    as [[dv l2]| |] eqn:Hpairs; try discriminate.
  apply pairs_loop_Ok_inv in Hpairs as (edges & Hedges & _ & Hlen & Hdeg); [|exact Hwf].
  cbn [l_state_diagram set_l_nvertices] in Hlen, Hdeg.
  unfold on_l_state_diagram, zoom, set_degree in Hrun.
  destruct (at_index (degree (l_state_diagram l2)) state) as [old|] eqn:Hold; [|discriminate].
  inversion Hrun; subst l'; clear Hrun.
  destruct (two_items _ _ _ E0 E1) as [more Hsplit].
  exists state, edges. split; [now exists s0, s1, more|].
  assert (is_Some (at_index (degree (l_state_diagram l2)) state)) as Hs
    by (rewrite Hold; eauto).
  apply at_index_is_Some in Hs. rewrite Hdeg, Hwd in Hs.
  split; [unfold in_range, MAXVERT in *; lia|].
  unfold wf_diagram, wf_degree in *.
  cbn [l_state_diagram set_l_state_diagram states degree].
  split; [congruence|]. rewrite length_insert. congruence.
Qed.

Lemma lines_loop_Ok_inv (tlines : list string) :
  forall (l l' : locals) (u : unit),
    lines_loop tlines l = Ok (u, l') ->
    2 <= l_counter l ->
    wf_diagram (l_state_diagram l) ->
    wf_degree (l_state_diagram l) ->
    exists parsed,
      Forall2 (fun str p => line_parses str p.1 p.2 /\ in_range p.1) tlines parsed.
Proof.
  induction tlines as [|str rest IH]; intros l l' u Hrun Hc Hwf Hwd.
  - exists []. constructor.
  - cbn [lines_loop] in Hrun. unfold bind in Hrun.
    destruct (line_body str l) as [[u1 l1]| |] eqn:E; try discriminate.
    pose proof (line_body_counter _ _ _ _ E) as Hc1.
    unfold line_body, bind, gets in E.
    destruct (l_counter l =? 0) eqn:E0; [apply Z.eqb_eq in E0; lia|].
    destruct (l_counter l =? 1) eqn:E1; [apply Z.eqb_eq in E1; lia|].
    destruct (transition_line str l) as [[u2 l2]| |] eqn:Et; try discriminate.
    apply transition_line_Ok_inv in Et as (state & edges & Hline & Hr & Hwf2 & Hwd2);
      [|assumption|assumption].
    unfold incr_counter, bind, gets, incr_int, modify, ret in E.
    destruct (l_counter l2 + 1 <=? INT_MAX); [|discriminate].
    inversion E; subst l1; clear E.
    destruct (IH _ _ _ Hrun) as [parsed Hparsed]; [lia|exact Hwf2|exact Hwd2|].
    exists ((state, edges) :: parsed). constructor; [now split|exact Hparsed].
Qed.

(** X20. The builder returns an automaton only for a description it could
    read: when it returns one for a file of at least two lines, every
    line after the second reads as a state in 0..[MAXVERT], a colon and
    pairs of numbers separated by bars.  For a file with a line that does
    not read so the run has no defined return: it ends in an exception
    of [std::stoi] or in undefined behaviour (an access out of bounds, as
    for a state outside 0..[MAXVERT], or a signed overflow). *)
Theorem build_only_reads_readable_lines
    (u : Indeterminate) (fs : filesystem) (filename : string) (d : DFA)
    (line0 line1 : string) (tlines : list string) :
  build_dfa_from_file u fs filename = Ok d ->
  file_lines fs filename = line0 :: line1 :: tlines ->
  exists parsed,
    Forall2 (fun str p => line_parses str p.1 p.2 /\ in_range p.1) tlines parsed.
Proof.
  unfold build_dfa_from_file, build_body. unfold bind at 1.
  match goal with |- context [lines_loop _ ?init] => set (l0 := init) end.
  intros Hb Hlines. rewrite Hlines in Hb.
  destruct (lines_loop (line0 :: line1 :: tlines) l0) as [[u1 l']| |] eqn:Erun;
    try discriminate.
  clear Hb. cbn [lines_loop] in Erun. unfold bind in Erun.
  destruct (line_body line0 l0) as [[u2 l1]| |] eqn:E0; try discriminate.
  apply line_body_first_Ok in E0 as (n0 & Hn0 & ->); [|reflexivity].
  destruct (line_body line1 _) as [[u3 l2]| |] eqn:E1; try discriminate.
  apply line_body_second_Ok in E1 as (n1 & Hn1 & ->); [|reflexivity].
  apply lines_loop_Ok_inv in Erun; [exact Erun|cbn; lia| |].
  - apply StateDiagram_new_wf.
  - apply StateDiagram_new_wf_degree.
Qed.

Lemma build_only_reads_readable_lines_witness :
  build_dfa_from_file zeros (single_file ab_text) "dfa.gph" = Ok (built_ab_dfa)
  /\ exists parsed,
       Forall2 (fun str p => line_parses str p.1 p.2 /\ in_range p.1)
               ["1: 97 2 | 98 3"; "2: 97 1"; "3: 98 1"] parsed.
Proof.
  assert (build_dfa_from_file zeros (single_file ab_text) "dfa.gph" = Ok built_ab_dfa) as Hb
    by (vm_compute; reflexivity).
  split; [exact Hb|].
  apply (build_only_reads_readable_lines zeros (single_file ab_text) "dfa.gph"
           built_ab_dfa "1" "2" _ Hb).
  vm_compute. reflexivity.
Defined.
